(** * One-time password shares: the Go backend (backend/models.go,
      backend/handlers.go, backend/main.go) embedded and verified.

    The store is a Go [map[string]*ShareData] guarded by a mutex.  The map
    holds POINTERS: a handler that obtained a record through [Get] keeps
    reading and sees mutations made through the map afterwards.  The model
    therefore has two components: the map from tokens to addresses and the
    heap of [ShareData] values those addresses refer to.

    The operations of the exchange store are the HTTP handlers: create is
    [CreateShareHandler], redeem is [GetShareHandler], delete is
    [DeleteShareHandler] and the sweep is [CleanupExpired].  Handlers are
    functions of the request, of the store and of what they read from the
    environment (the clock, the entropy source); they return the response
    and the store.  A handler running alone is such a function; handlers
    running at the same time are threads that interleave at the calls of
    the store methods (section "Concurrent redeems"). *)

From Stdlib Require Import ZArith Lia String Ascii List.
From Stdlib Require Strings.Byte.
From stdpp Require Import gmap strings list fin_maps.

Local Open Scope Z_scope.

(** ** Time *)

Module GoTime.

(** [time.Time] is an instant; it is modelled as a count of nanoseconds on
    [Z].  [time.Duration] is an [int64] count of nanoseconds, so arithmetic
    on durations wraps around. *)
Definition Time := Z.
Definition Duration := Z.

Definition wrap64 (z : Z) : Z := (z + 2 ^ 63) mod 2 ^ 64 - 2 ^ 63.

Definition MaxInt64 : Z := 2 ^ 63 - 1.
Definition MinInt64 : Z := - 2 ^ 63.

Definition Nanosecond : Duration := 1.
Definition Second : Duration := 1000000000 * Nanosecond.
Definition Minute : Duration := 60 * Second.
Definition Hour : Duration := 60 * Minute.

(** [time.Duration(h) * time.Hour]: an int64 product. *)
Definition Duration_mul (a b : Duration) : Duration := wrap64 (a * b).

(** [t.Add(d)].  The seconds counter of a [time.Time] is itself 64 bits
    wide and counts from year 1, so a wall-clock reading plus any int64
    nanosecond duration is far from its limits: the sum is exact. *)
Definition Add (t : Time) (d : Duration) : Time := t + d.

(** [t.After(u)]: strictly later. *)
Definition After (t u : Time) : bool := u <? t.

End GoTime.

Import GoTime.

(** ** backend/models.go *)

Record ShareData := mkShareData {
  EncryptedPassword : string;
  ServiceName : string;
  Username : string;
  CreatedAt : Time;
  ExpiresAt : Time;
  Viewed : bool;
  ViewedAt : option Time
}.

Record ShareRequest := mkShareRequest {
  req_EncryptedPassword : string;
  req_ServiceName : string;
  req_Username : string;
  req_ExpirationHours : Z
}.

Record ShareResponse := mkShareResponse {
  Token : string;
  ShareURL : string;
  resp_ExpiresAt : Time
}.

Record ShareRetrieveResponse := mkShareRetrieveResponse {
  ret_EncryptedPassword : string;
  ret_ServiceName : string;
  ret_Username : string;
  ret_CreatedAt : Time;
  ret_ViewedAt : option Time
}.

(** A [*ShareData]: an address in the heap of share records. *)
Definition ptr := nat.

(** [ShareStore]: the [shares] map of the Go struct, together with the heap
    cells its pointers refer to ([objs]).  The mutex [mu] makes every method
    below one atomic step; it carries no data. *)
Record ShareStore := mkShareStore {
  shares : gmap string ptr;
  objs : list ShareData
}.

Definition NewShareStore : ShareStore :=
  {| shares := ∅; objs := [] |}.

(** [&ShareData{...}]: allocation of a new heap cell. *)
Definition new_ShareData (d : ShareData) (s : ShareStore) : ptr * ShareStore :=
  (length (objs s), {| shares := shares s; objs := objs s ++ [d] |}).

(** Dereference; [None] is a nil-pointer panic. *)
Definition deref (s : ShareStore) (p : ptr) : option ShareData := objs s !! p.

Definition Add (token : string) (data : ptr) (s : ShareStore) : ShareStore :=
  {| shares := <[token := data]> (shares s); objs := objs s |}.

(** [Get] returns [(data, exists)]; [None] stands for [exists = false]. *)
Definition Get (token : string) (s : ShareStore) : option ptr :=
  shares s !! token.

Definition set_viewed (now : Time) (d : ShareData) : ShareData :=
  {| EncryptedPassword := EncryptedPassword d;
     ServiceName := ServiceName d;
     Username := Username d;
     CreatedAt := CreatedAt d;
     ExpiresAt := ExpiresAt d;
     Viewed := true;
     ViewedAt := Some now |}.

(** [MarkViewed]; [now] is the reading of [time.Now()] taken inside.  The
    outer [None] is a nil-pointer panic. *)
Definition MarkViewed (now : Time) (token : string) (s : ShareStore)
  : option ShareStore :=
  match shares s !! token with
  | Some p =>
      match objs s !! p with
      | Some d => Some {| shares := shares s;
                          objs := <[p := set_viewed now d]> (objs s) |}
      | None => None
      end
  | None => Some s
  end.

Definition Delete (token : string) (s : ShareStore) : ShareStore :=
  {| shares := delete token (shares s); objs := objs s |}.

(** One iteration of the loop of [CleanupExpired] on the entry
    [(token, data)]; the accumulator is the map and [count]. *)
Definition cleanup_body (now : Time) (heap : list ShareData)
    (acc : option (gmap string ptr * Z)) (e : string * ptr)
  : option (gmap string ptr * Z) :=
  match acc with
  | None => None
  | Some (m, count) =>
      match heap !! e.2 with
      | None => None
      | Some data =>
          if After now (ExpiresAt data)
          then Some (delete e.1 m, count + 1)
          else Some (m, count)
      end
  end.

(** [CleanupExpired] with the order in which [range] produces the entries
    made explicit.  Go leaves that order unspecified; deleting the entry
    just produced does not affect which other entries are produced, so the
    loop visits each entry of the map as it was on entry exactly once. *)
Definition CleanupExpired_in (order : list (string * ptr)) (now : Time)
    (s : ShareStore) : option (Z * ShareStore) :=
  match foldl (cleanup_body now (objs s)) (Some (shares s, 0)) order with
  | Some (m, count) => Some (count, {| shares := m; objs := objs s |})
  | None => None
  end.

Definition CleanupExpired (now : Time) (s : ShareStore)
  : option (Z * ShareStore) :=
  CleanupExpired_in (map_to_list (shares s)) now s.

(** [GetAll]: a copy of the map. *)
Definition GetAll (s : ShareStore) : gmap string ptr :=
  map_fold (fun k v copy => <[k := v]> copy) ∅ (shares s).

(** ** Library functions used by backend/handlers.go *)

Module Base64.

Import Strings.Byte.

(** The alphabet of [base64.URLEncoding]; padding is [=]. *)
Definition encodeURL : string :=
  "ABCDEFGHIJKLMNOPQRSTUVWXYZabcdefghijklmnopqrstuvwxyz0123456789-_".

Definition sextet (val : N) (shift : N) : ascii :=
  match String.get (N.to_nat (N.land (N.shiftr val shift) 63)) encodeURL with
  | Some c => c
  | None => "="%char
  end.

(** [EncodeToString]: three source bytes give four characters; a last group
    of one or two bytes is padded to four characters. *)
Fixpoint EncodeToString (src : list byte) : string :=
  match src with
  | [] => EmptyString
  | [a] =>
      let val := N.shiftl (to_N a) 16 in
      String (sextet val 18) (String (sextet val 12) "==")
  | [a; b] =>
      let val := N.lor (N.shiftl (to_N a) 16) (N.shiftl (to_N b) 8) in
      String (sextet val 18) (String (sextet val 12)
        (String (sextet val 6) "="))
  | a :: b :: c :: rest =>
      let val := N.lor (N.lor (N.shiftl (to_N a) 16) (N.shiftl (to_N b) 8))
                       (to_N c) in
      String (sextet val 18) (String (sextet val 12)
        (String (sextet val 6) (String (sextet val 0)
          (EncodeToString rest))))
  end.

End Base64.

(** [rand.Read(buf)]: fills the whole buffer or fails.  [drawn] is what the
    entropy source delivers, [None] when it fails; a delivery shorter than
    the buffer is a failed read as well. *)
Definition rand_Read (drawn : option (list Byte.byte)) (buf : list Byte.byte)
  : option (list Byte.byte) :=
  match drawn with
  | None => None
  | Some bs =>
      if (length buf <=? length bs)%nat then Some (take (length buf) bs)
      else None
  end.

(** [strings.TrimPrefix]. *)
Definition TrimPrefix (s prefix : string) : string :=
  if String.prefix prefix s
  then substring (String.length prefix)
                 (String.length s - String.length prefix) s
  else s.

(** The slice expression [s[:n]]; [None] is the run-time panic for a slice
    bound out of range. *)
Definition slice_to (n : nat) (s : string) : option string :=
  if (n <=? String.length s)%nat then Some (substring 0 n s) else None.

(** ** HTTP requests and responses *)

(** A JSON object as the body of [POST /api/share]: each member is absent
    (or null) or carries a string, respectively an integer.  Any other body
    (not JSON, a member of another type, a number with a fraction) makes the
    decoder fail and is [Body = None] below. *)
Record JSONObject := mkJSONObject {
  json_encrypted_password : option string;
  json_service_name : option string;
  json_username : option string;
  json_expiration_hours : option Z
}.

(** [json.NewDecoder(r.Body).Decode(&req)] into a zero [ShareRequest]: an
    absent member leaves the zero value of its field; a number that does not
    fit the Go [int] (64 bits on the targets the service is built for) is an
    error, as is [Body = None]. *)
Definition Decode (body : option JSONObject) : option ShareRequest :=
  match body with
  | None => None
  | Some o =>
      let h := default 0 (json_expiration_hours o) in
      if (MinInt64 <=? h) && (h <=? MaxInt64)
      then Some {| req_EncryptedPassword := default EmptyString (json_encrypted_password o);
                   req_ServiceName := default EmptyString (json_service_name o);
                   req_Username := default EmptyString (json_username o);
                   req_ExpirationHours := h |}
      else None
  end.

Record Request := mkRequest {
  Method : string;
  URL_Path : string;
  Body : option JSONObject
}.

Definition StatusOK : Z := 200.
Definition StatusBadRequest : Z := 400.
Definition StatusNotFound : Z := 404.
Definition StatusMethodNotAllowed : Z := 405.
Definition StatusGone : Z := 410.
Definition StatusInternalServerError : Z := 500.

Inductive ResponseBody :=
| BodyShare (response : ShareResponse)
| BodyRetrieve (response : ShareRetrieveResponse)
| BodyErrorDetails (error : string) (details : ShareRetrieveResponse)
| BodyMessage (message : string).

(** What the client receives.  [Error msg code] is [http.Error(w, msg, code)];
    [JSON code body] is a JSON document with that status; [Aborted] is a
    handler that panicked: the server drops the connection. *)
Inductive Response :=
| Error (msg : string) (code : Z)
| JSON (code : Z) (body : ResponseBody)
| Aborted.

(** ** backend/handlers.go *)

(** [generateSecureToken(length)]: [None] is the error return. *)
Definition generateSecureToken (length : nat) (drawn : option (list Byte.byte))
  : option string :=
  let bytes := repeat Byte.x00 length in
  match rand_Read drawn bytes with
  | None => None
  | Some bytes => Some (Base64.EncodeToString bytes)
  end.

(** The TTL in hours after defaulting (lines 43-47). *)
Definition effectiveHours (req : ShareRequest) : Z :=
  let expirationHours := req_ExpirationHours req in
  if expirationHours <=? 0 then 24 else expirationHours.

(** [CreateShareHandler(store, baseURL)], as a function of the request, the
    reading of [time.Now()] and the delivery of the entropy source. *)
Definition CreateShareHandler (baseURL : string) (now : Time)
    (drawn : option (list Byte.byte)) (r : Request) (store : ShareStore)
  : Response * ShareStore :=
  if negb (Method r =? "POST")%string
  then (Error "Method not allowed" StatusMethodNotAllowed, store)
  else
  match Decode (Body r) with
  | None => (Error "Invalid request body" StatusBadRequest, store)
  | Some req =>
      if (req_EncryptedPassword req =? "")%string
         || (req_ServiceName req =? "")%string
         || (req_Username req =? "")%string
      then (Error "Missing required fields" StatusBadRequest, store)
      else
      let expirationHours := effectiveHours req in
      match generateSecureToken 32 drawn with
      | None => (Error "Internal server error" StatusInternalServerError, store)
      | Some token =>
          let (shareData, store1) :=
            new_ShareData
              {| EncryptedPassword := req_EncryptedPassword req;
                 ServiceName := req_ServiceName req;
                 Username := req_Username req;
                 CreatedAt := now;
                 ExpiresAt := GoTime.Add now (Duration_mul expirationHours Hour);
                 Viewed := false;
                 ViewedAt := None |} store in
          let store2 := Add token shareData store1 in
          match deref store2 shareData with
          | None => (Aborted, store2)
          | Some sd =>
              let response :=
                {| Token := token;
                   ShareURL := baseURL +:+ "/share/" +:+ token;
                   resp_ExpiresAt := ExpiresAt sd |} in
              match slice_to 10 token with
              | None => (Aborted, store2)
              | Some _ => (JSON StatusOK (BodyShare response), store2)
              end
          end
      end
  end.

(** [GetShareHandler(store)].  [now_check] is the reading of [time.Now()] in
    the expiry test and [now_mark] the later one inside [MarkViewed].  The
    record is read through the pointer that [Get] returned, after
    [MarkViewed] as well. *)
Definition GetShareHandler (now_check now_mark : Time) (r : Request)
    (store : ShareStore) : Response * ShareStore :=
  if negb (Method r =? "GET")%string
  then (Error "Method not allowed" StatusMethodNotAllowed, store)
  else
  let token := TrimPrefix (URL_Path r) "/api/share/" in
  if (token =? "")%string
  then (Error "Token required" StatusBadRequest, store)
  else
  match Get token store with
  | None => (Error "Share not found or expired" StatusNotFound, store)
  | Some shareData =>
      match deref store shareData with
      | None => (Aborted, store)
      | Some sd =>
          if After now_check (ExpiresAt sd)
          then (Error "Share has expired" StatusGone, Delete token store)
          else if Viewed sd
          then (JSON StatusGone
                  (BodyErrorDetails "This share has already been viewed"
                     {| ret_EncryptedPassword := "";
                        ret_ServiceName := ServiceName sd;
                        ret_Username := Username sd;
                        ret_CreatedAt := CreatedAt sd;
                        ret_ViewedAt := ViewedAt sd |}), store)
          else
          match MarkViewed now_mark token store with
          | None => (Aborted, store)
          | Some store1 =>
              match deref store1 shareData with
              | None => (Aborted, store1)
              | Some sd1 =>
                  let response :=
                    {| ret_EncryptedPassword := EncryptedPassword sd1;
                       ret_ServiceName := ServiceName sd1;
                       ret_Username := Username sd1;
                       ret_CreatedAt := CreatedAt sd1;
                       ret_ViewedAt := ViewedAt sd1 |} in
                  let store2 := Delete token store1 in
                  match slice_to 10 token with
                  | None => (Aborted, store2)
                  | Some _ => (JSON StatusOK (BodyRetrieve response), store2)
                  end
              end
          end
      end
  end.

(** [DeleteShareHandler(store)]. *)
Definition DeleteShareHandler (r : Request) (store : ShareStore)
  : Response * ShareStore :=
  if negb (Method r =? "DELETE")%string
  then (Error "Method not allowed" StatusMethodNotAllowed, store)
  else
  let token := TrimPrefix (URL_Path r) "/api/share/" in
  if (token =? "")%string
  then (Error "Token required" StatusBadRequest, store)
  else
  match Get token store with
  | None => (Error "Share not found" StatusNotFound, store)
  | Some _ =>
      let store1 := Delete token store in
      match slice_to 10 token with
      | None => (Aborted, store1)
      | Some _ => (JSON StatusOK (BodyMessage "Share deleted successfully"), store1)
      end
  end.

(** ** Concurrent redeems

    The server runs each request in a goroutine of its own.  The mutex makes
    each call of a store method atomic, and nothing more: between two calls
    of one handler, other handlers run.  A redeem in flight is a thread whose
    control points are the shared accesses of [GetShareHandler]; the local
    variables [token], [shareData] and [response] live in the control point. *)

Inductive GetThread :=
| AtGet (token : string)                             (* line 105 *)
| AtExpiry (token : string) (shareData : ptr)        (* line 112 *)
| AtExpiredDelete (token : string)                   (* line 113 *)
| AtViewed (token : string) (shareData : ptr)        (* line 119 *)
| AtViewedDetails (shareData : ptr)                  (* lines 120-126 *)
| AtMarkViewed (token : string) (shareData : ptr)    (* line 137 *)
| AtResponse (token : string) (shareData : ptr)      (* lines 139-145 *)
| AtDelete (token : string) (response : ShareRetrieveResponse) (* line 149 *)
| Finished (resp : Response).

(** The part of the handler before the first shared access. *)
Definition get_thread (r : Request) : GetThread :=
  if negb (Method r =? "GET")%string
  then Finished (Error "Method not allowed" StatusMethodNotAllowed)
  else
  let token := TrimPrefix (URL_Path r) "/api/share/" in
  if (token =? "")%string
  then Finished (Error "Token required" StatusBadRequest)
  else AtGet token.

(** One atomic step of a redeem thread; [now] is the clock at that moment
    (read by the steps that call [time.Now()]). *)
Definition get_step (now : Time) (t : GetThread) (store : ShareStore)
  : GetThread * ShareStore :=
  match t with
  | AtGet token =>
      match Get token store with
      | None => (Finished (Error "Share not found or expired" StatusNotFound), store)
      | Some shareData => (AtExpiry token shareData, store)
      end
  | AtExpiry token shareData =>
      match deref store shareData with
      | None => (Finished Aborted, store)
      | Some sd =>
          if After now (ExpiresAt sd)
          then (AtExpiredDelete token, store)
          else (AtViewed token shareData, store)
      end
  | AtExpiredDelete token =>
      (Finished (Error "Share has expired" StatusGone), Delete token store)
  | AtViewed token shareData =>
      match deref store shareData with
      | None => (Finished Aborted, store)
      | Some sd =>
          if Viewed sd then (AtViewedDetails shareData, store)
          else (AtMarkViewed token shareData, store)
      end
  | AtViewedDetails shareData =>
      match deref store shareData with
      | None => (Finished Aborted, store)
      | Some sd =>
          (Finished (JSON StatusGone
             (BodyErrorDetails "This share has already been viewed"
                {| ret_EncryptedPassword := "";
                   ret_ServiceName := ServiceName sd;
                   ret_Username := Username sd;
                   ret_CreatedAt := CreatedAt sd;
                   ret_ViewedAt := ViewedAt sd |})), store)
      end
  | AtMarkViewed token shareData =>
      match MarkViewed now token store with
      | None => (Finished Aborted, store)
      | Some store1 => (AtResponse token shareData, store1)
      end
  | AtResponse token shareData =>
      match deref store shareData with
      | None => (Finished Aborted, store)
      | Some sd =>
          (AtDelete token
             {| ret_EncryptedPassword := EncryptedPassword sd;
                ret_ServiceName := ServiceName sd;
                ret_Username := Username sd;
                ret_CreatedAt := CreatedAt sd;
                ret_ViewedAt := ViewedAt sd |}, store)
      end
  | AtDelete token response =>
      (match slice_to 10 token with
       | None => Finished Aborted
       | Some _ => Finished (JSON StatusOK (BodyRetrieve response))
       end, Delete token store)
  | Finished resp => (Finished resp, store)
  end.

(** A configuration: the store and the redeems in flight.  A schedule names,
    step by step, the thread that moves and the clock at that moment. *)
Definition Config : Type := ShareStore * list GetThread.

Definition sched_step (cfg : Config) (e : nat * Time) : Config :=
  match cfg.2 !! e.1 with
  | None => cfg
  | Some t =>
      let (t', store') := get_step e.2 t cfg.1 in
      (store', <[e.1 := t']> cfg.2)
  end.

Definition run_schedule (sched : list (nat * Time)) (cfg : Config) : Config :=
  foldl sched_step cfg sched.

(** The response a finished thread delivered. *)
Definition delivered (t : GetThread) : option Response :=
  match t with Finished resp => Some resp | _ => None end.

(** The secret a response discloses, if any. *)
Definition payload_of (resp : Response) : option string :=
  match resp with
  | JSON _ (BodyRetrieve response) => Some (ret_EncryptedPassword response)
  | JSON _ (BodyErrorDetails _ details) =>
      if (ret_EncryptedPassword details =? "")%string then None
      else Some (ret_EncryptedPassword details)
  | _ => None
  end.

(** ** Requests of the three routes *)

Definition create_request (o : JSONObject) : Request :=
  {| Method := "POST"; URL_Path := "/api/share"; Body := Some o |}.

Definition redeem_request (token : string) : Request :=
  {| Method := "GET"; URL_Path := "/api/share/" +:+ token; Body := None |}.

Definition delete_request (token : string) : Request :=
  {| Method := "DELETE"; URL_Path := "/api/share/" +:+ token; Body := None |}.

(** ** The invariant of the store

    Every key of the map is a generated token (44 characters: 32 bytes in
    padded base64), every value points to an allocated record, and no two
    keys share a record. *)
Definition wf (s : ShareStore) : Prop :=
  (forall tok p, shares s !! tok = Some p ->
     String.length tok = 44%nat /\ is_Some (objs s !! p))
  /\ (forall tok1 tok2 p, shares s !! tok1 = Some p ->
        shares s !! tok2 = Some p -> tok1 = tok2).

(** The states the server can be in: from the empty store, by any of the
    three handlers on any request and by the cleanup worker. *)
Inductive reachable : ShareStore -> Prop :=
| reach_new : reachable NewShareStore
| reach_create s baseURL now drawn r :
    reachable s -> reachable (CreateShareHandler baseURL now drawn r s).2
| reach_get s now_check now_mark r :
    reachable s -> reachable (GetShareHandler now_check now_mark r s).2
| reach_delete s r :
    reachable s -> reachable (DeleteShareHandler r s).2
| reach_cleanup s order now count s' :
    reachable s -> order ≡ₚ map_to_list (shares s) ->
    CleanupExpired_in order now s = Some (count, s') -> reachable s'.

(** ** Vocabulary of the properties *)

(** The record at [p] is past its deadline at [now]: [ExpiresAt < now]. *)
Definition expired (now : Time) (heap : list ShareData) (p : ptr) : bool :=
  match heap !! p with
  | Some d => After now (ExpiresAt d)
  | None => false
  end.

(** The payload as the redeem response carries it. *)
Definition retrieve_response (d : ShareData) : ShareRetrieveResponse :=
  {| ret_EncryptedPassword := EncryptedPassword d;
     ret_ServiceName := ServiceName d;
     ret_Username := Username d;
     ret_CreatedAt := CreatedAt d;
     ret_ViewedAt := ViewedAt d |}.

(** The details of the already-viewed error: the record without its
    secret. *)
Definition viewed_details (d : ShareData) : ShareRetrieveResponse :=
  {| ret_EncryptedPassword := "";
     ret_ServiceName := ServiceName d;
     ret_Username := Username d;
     ret_CreatedAt := CreatedAt d;
     ret_ViewedAt := ViewedAt d |}.


(** The record a create request stores. *)
Definition created_record (now : Time) (req : ShareRequest) : ShareData :=
  {| EncryptedPassword := req_EncryptedPassword req;
     ServiceName := req_ServiceName req;
     Username := req_Username req;
     CreatedAt := now;
     ExpiresAt := GoTime.Add now (Duration_mul (effectiveHours req) Hour);
     Viewed := false;
     ViewedAt := None |}.

(** A request passes the validation of [CreateShareHandler]. *)
Definition valid_request (req : ShareRequest) : Prop :=
  req_EncryptedPassword req <> EmptyString
  /\ req_ServiceName req <> EmptyString
  /\ req_Username req <> EmptyString.


(** The invariant can be checked by computation. *)
Definition wf_alt (s : ShareStore) : Prop :=
  map_Forall (fun tok p => String.length tok = 44%nat /\ is_Some (objs s !! p))
             (shares s)
  /\ NoDup (map_to_list (shares s)).*2.


(** The typed results of the exchange store, as the HTTP responses of the
    handlers encode them: the payload is a 200 with the record, [NotFound] a
    404, [Expired] a plain 410 and [AlreadyViewed] a 410 with a JSON body of
    non-secret details. *)
Inductive Outcome := Payload | NotFound | Expired | AlreadyViewed | Other.

Definition outcome (resp : Response) : Outcome :=
  match resp with
  | JSON code (BodyRetrieve _) =>
      if code =? StatusOK then Payload else Other
  | JSON code (BodyErrorDetails _ _) =>
      if code =? StatusGone then AlreadyViewed else Other
  | Error _ code =>
      if code =? StatusNotFound then NotFound
      else if code =? StatusGone then Expired
      else Other
  | _ => Other
  end.

(** A redeem thread run on its own, one clock reading per step. *)
Fixpoint run_thread (clock : list Time) (t : GetThread) (s : ShareStore)
  : GetThread * ShareStore :=
  match clock with
  | [] => (t, s)
  | now :: clock' =>
      let (t', s') := get_step now t s in run_thread clock' t' s'
  end.

(** Operations on the store, one after the other. *)
Inductive Op :=
| OpCreate (baseURL : string) (now : Time) (drawn : option (list Byte.byte))
           (r : Request)
| OpGet (now_check now_mark : Time) (r : Request)
| OpDelete (r : Request)
| OpCleanup (now : Time).

Definition apply_op (op : Op) (s : ShareStore) : ShareStore :=
  match op with
  | OpCreate baseURL now drawn r => (CreateShareHandler baseURL now drawn r s).2
  | OpGet now_check now_mark r => (GetShareHandler now_check now_mark r s).2
  | OpDelete r => (DeleteShareHandler r s).2
  | OpCleanup now =>
      match CleanupExpired now s with
      | Some (_, s') => s'
      | None => s
      end
  end.

Definition run_ops (ops : list Op) (s : ShareStore) : ShareStore :=
  foldl (fun s op => apply_op op s) s ops.

(** An operation that neither names the handle [token] nor generates it,
    and a sweep that runs no later than [deadline]. *)
Definition leaves_alone (token : string) (deadline : Time) (op : Op) : Prop :=
  match op with
  | OpCreate _ _ drawn _ => generateSecureToken 32 drawn <> Some token
  | OpGet _ _ r => TrimPrefix (URL_Path r) "/api/share/" <> token
  | OpDelete r => TrimPrefix (URL_Path r) "/api/share/" <> token
  | OpCleanup now => now <= deadline
  end.

(** Two redeems that take turns, step by step; [nc0], [nc1] are the clock
    readings of their expiry tests and [nm0], [nm1] those of their
    [MarkViewed] calls (the other steps do not read the clock). *)
Definition race (nc0 nc1 nm0 nm1 : Time) : list (nat * Time) :=
  [(0%nat, 0); (1%nat, 0);        (* Get, Get *)
   (0%nat, nc0); (1%nat, nc1);    (* expiry test, expiry test *)
   (0%nat, 0); (1%nat, 0);        (* viewed test, viewed test *)
   (0%nat, nm0); (1%nat, nm1);    (* MarkViewed, MarkViewed *)
   (0%nat, 0); (1%nat, 0);        (* response, response *)
   (0%nat, 0); (1%nat, 0)].       (* Delete, Delete *)

(** The store holds the record [d] under the handle [token]. *)
Definition holds_record (token : string) (d : ShareData) (s : ShareStore)
  : Prop :=
  exists p, shares s !! token = Some p /\ objs s !! p = Some d.

(** ** Sample data *)

Module Sample.

Definition gmail : JSONObject :=
  {| json_encrypted_password := Some "c2VjcmV0";
     json_service_name := Some "Gmail";
     json_username := Some "a@b.com";
     json_expiration_hours := None |}.

Definition github : JSONObject :=
  {| json_encrypted_password := Some "aHVudGVyMg==";
     json_service_name := Some "GitHub";
     json_username := Some "octocat";
     json_expiration_hours := Some 1 |}.

Definition zeros : option (list Byte.byte) := Some (repeat Byte.x00 32).
Definition ones : option (list Byte.byte) := Some (repeat Byte.xff 32).

Definition token0 : string := "AAAAAAAAAAAAAAAAAAAAAAAAAAAAAAAAAAAAAAAAAAA=".
Definition token1 : string := "__________________________________________8=".

Definition baseURL : string := "http://localhost:8080".

(** The store after [gmail] was shared at time 1000 under [token0]. *)
Definition store1 : ShareStore :=
  (CreateShareHandler baseURL 1000 zeros (create_request gmail)
     NewShareStore).2.

(** ... and [github] at time 2000 under [token1], for one hour. *)
Definition store2 : ShareStore :=
  (CreateShareHandler baseURL 2000 ones (create_request github) store1).2.

End Sample.

(** ** backend/main.go *)

(** The headers [corsMiddleware] sets on every response. *)
Definition cors_headers (allowedOrigin : string) : list (string * string) :=
  [("Access-Control-Allow-Origin", allowedOrigin);
   ("Access-Control-Allow-Methods", "GET, POST, DELETE, OPTIONS");
   ("Access-Control-Allow-Headers", "Content-Type");
   ("Access-Control-Allow-Credentials", "true")].

(** What came of a request that went through the middleware: the preflight
    answer ([WriteHeader(200)], no body) or the response of the wrapped
    handler. *)
Inductive Served :=
| Preflight
| Handled (resp : Response).

(** [corsMiddleware(next)].  [env_ALLOWED_ORIGIN] is the value of
    [os.Getenv("ALLOWED_ORIGIN")], empty when the variable is not set. *)
Definition corsMiddleware (env_ALLOWED_ORIGIN : string)
    (next : Request -> ShareStore -> Response * ShareStore)
    (r : Request) (store : ShareStore)
  : list (string * string) * Served * ShareStore :=
  let allowedOrigin :=
    if (env_ALLOWED_ORIGIN =? "")%string then "*" else env_ALLOWED_ORIGIN in
  let header := cors_headers allowedOrigin in
  if (Method r =? "OPTIONS")%string
  then (header, Preflight, store)
  else let (resp, store') := next r store in (header, Handled resp, store').

(** The handler registered for ["/api/share/"] (main.go, lines 68-77),
    before the middleware is wrapped around it. *)
Definition shareRoute (now_check now_mark : Time) (r : Request)
    (store : ShareStore) : Response * ShareStore :=
  if (Method r =? "GET")%string
  then GetShareHandler now_check now_mark r store
  else if (Method r =? "DELETE")%string
  then DeleteShareHandler r store
  else (Error "Method not allowed" StatusMethodNotAllowed, store).

(** One round of the loop of [cleanupWorker]: the sweep at the tick [now] and
    the line it logs, ["Cleaned up %d expired shares"], kept as the number
    [count].  [None] is a panic inside the sweep. *)
Definition cleanupWorker_tick (acc : option (list Z * ShareStore)) (now : Time)
  : option (list Z * ShareStore) :=
  match acc with
  | None => None
  | Some (log, store) =>
      match CleanupExpired now store with
      | None => None
      | Some (count, store') =>
          Some (if 0 <? count then log ++ [count] else log, store')
      end
  end.

(** [cleanupWorker(store, interval)] over the ticks the ticker delivered so
    far; each tick is the clock reading of the sweep it starts. *)
Definition cleanupWorker (ticks : list Time) (store : ShareStore)
  : option (list Z * ShareStore) :=
  foldl cleanupWorker_tick (Some ([], store)) ticks.

(** ** More vocabulary *)

(** The characters of a token: the URL-safe base64 alphabet and the padding
    character. *)
Definition url_safe (c : ascii) : Prop :=
  c ∈ list_ascii_of_string Base64.encodeURL \/ c = "="%char.

(** [d'] is the record [d] at a later moment: the same secret, metadata and
    deadlines; once viewed, viewed. *)
Definition same_record_later (d d' : ShareData) : Prop :=
  EncryptedPassword d' = EncryptedPassword d
  /\ ServiceName d' = ServiceName d
  /\ Username d' = Username d
  /\ CreatedAt d' = CreatedAt d
  /\ ExpiresAt d' = ExpiresAt d
  /\ (Viewed d = true -> Viewed d' = true).

(** Redeems of one handle, one after the other; each takes its two clock
    readings. *)
Fixpoint redeem_repeatedly (clock : list (Time * Time)) (token : string)
    (s : ShareStore) : list Response * ShareStore :=
  match clock with
  | [] => ([], s)
  | (now_check, now_mark) :: clock' =>
      let (resp, s1) :=
        GetShareHandler now_check now_mark (redeem_request token) s in
      let (resps, s2) := redeem_repeatedly clock' token s1 in
      (resp :: resps, s2)
  end.

(** No record of the heap can be disclosed during a schedule: each is
    viewed already, or past its deadline at every clock reading. *)
Definition all_consumed (sched : list (nat * Time)) (s : ShareStore) : Prop :=
  forall p d, objs s !! p = Some d ->
    Viewed d = true \/ Forall (fun e => ExpiresAt d < e.2) sched.

(** A redeem thread that holds no record to return: it has not passed the
    expiry test, or it has and the record it then looks at is marked
    viewed. *)
Definition harmless (s : ShareStore) (t : GetThread) : Prop :=
  match t with
  | AtViewed _ p => forall d, objs s !! p = Some d -> Viewed d = true
  | AtMarkViewed _ _ | AtResponse _ _ | AtDelete _ _ => False
  | Finished resp => payload_of resp = None
  | _ => True
  end.

(** What holds of the records of a store besides [wf], when handlers run
    one at a time: a record bound to a handle is not marked viewed; every
    record has its three fields, as validated at create; and the flag
    [Viewed] and the time [ViewedAt] are set together. *)
Definition records_inv (s : ShareStore) : Prop :=
  (forall tok p d, shares s !! tok = Some p -> objs s !! p = Some d ->
     Viewed d = false)
  /\ (forall p d, objs s !! p = Some d ->
        EncryptedPassword d <> EmptyString /\ ServiceName d <> EmptyString
        /\ Username d <> EmptyString
        /\ (Viewed d = false <-> ViewedAt d = None)).

(** * Properties *)

(** ** Library functions *)

Section Helpers.

Lemma EncodeToString_length_aux (n : nat) :
  forall src : list Byte.byte,
    (length src < n)%nat ->
    String.length (Base64.EncodeToString src)
    = (4 * ((length src + 2) / 3))%nat.
Proof.
  induction n as [|n IH]; intros src Hlt; [lia|].
  destruct src as [|a [|b [|c rest]]]; try reflexivity.
  cbn [Base64.EncodeToString String.length length].
  rewrite IH by (cbn [length] in Hlt; lia).
  replace (S (S (S (length rest))) + 2)%nat
    with ((length rest + 2) + 1 * 3)%nat by lia.
  rewrite Nat.div_add by lia. lia.
Qed.

Lemma EncodeToString_length (src : list Byte.byte) :
  String.length (Base64.EncodeToString src)
  = (4 * ((length src + 2) / 3))%nat.
Proof. apply (EncodeToString_length_aux (S (length src))). lia. Qed.

Lemma rand_Read_length drawn buf bytes :
  rand_Read drawn buf = Some bytes -> length bytes = length buf.
Proof.
  unfold rand_Read. destruct drawn as [bs|]; [|discriminate].
  destruct (length buf <=? length bs)%nat eqn:E; [|discriminate].
  intros [= <-]. apply Nat.leb_le in E. rewrite length_take. lia.
Qed.

(** A generated token has 44 characters. *)
Lemma generateSecureToken_length drawn token :
  generateSecureToken 32 drawn = Some token ->
  String.length token = 44%nat.
Proof.
  unfold generateSecureToken.
  destruct (rand_Read drawn (repeat Byte.x00 32)) as [bytes|] eqn:E;
    [|discriminate].
  intros [= <-]. apply rand_Read_length in E.
  rewrite EncodeToString_length, E. reflexivity.
Qed.

Lemma substring_all (s : string) : substring 0 (String.length s) s = s.
Proof. induction s as [|c s IH]; cbn; [reflexivity | by rewrite IH]. Qed.

Lemma prefix_append (p s : string) : String.prefix p (p +:+ s) = true.
Proof.
  induction p as [|c p IH]; [by destruct s|].
  unfold String.append; fold String.append. cbn [String.prefix].
  destruct (ascii_dec c c); [exact IH | congruence].
Qed.

Lemma substring_append (p s : string) :
  substring (String.length p)
    (String.length (p +:+ s) - String.length p) (p +:+ s) = s.
Proof.
  induction p as [|c p IH].
  - unfold String.append. cbn [String.length].
    rewrite Nat.sub_0_r. apply substring_all.
  - unfold String.append; fold String.append.
    cbn [String.length substring Nat.sub]. exact IH.
Qed.

Lemma TrimPrefix_share (token : string) :
  TrimPrefix ("/api/share/" +:+ token) "/api/share/" = token.
Proof.
  unfold TrimPrefix. rewrite prefix_append. apply substring_append.
Qed.

Lemma token_nonempty (token : string) :
  String.length token = 44%nat -> (token =? "")%string = false.
Proof. destruct token; [discriminate | reflexivity]. Qed.

Lemma slice_to_token (token : string) :
  String.length token = 44%nat -> is_Some (slice_to 10 token).
Proof. unfold slice_to. intros ->. cbn. eauto. Qed.

End Helpers.

(** ** The store methods *)

Section StoreMethods.

Implicit Types (s : ShareStore) (tok token : string) (p : ptr)
  (d : ShareData) (now : Time).

Lemma MarkViewed_present now tok s p d :
  shares s !! tok = Some p -> objs s !! p = Some d ->
  MarkViewed now tok s
  = Some {| shares := shares s; objs := <[p := set_viewed now d]> (objs s) |}.
Proof. intros Hp Hd. unfold MarkViewed. by rewrite Hp, Hd. Qed.

Lemma MarkViewed_shares now tok s s' :
  MarkViewed now tok s = Some s' -> shares s' = shares s.
Proof.
  unfold MarkViewed. destruct (shares s !! tok) as [p|]; [|by intros [= <-]].
  destruct (objs s !! p); [|discriminate]. by intros [= <-].
Qed.

Lemma MarkViewed_allocated now tok s s' q :
  MarkViewed now tok s = Some s' ->
  is_Some (objs s !! q) -> is_Some (objs s' !! q).
Proof.
  unfold MarkViewed. destruct (shares s !! tok) as [p|]; [|by intros [= <-]].
  destruct (objs s !! p); [|discriminate]. intros [= <-]. cbn.
  rewrite !lookup_lt_is_Some, length_insert. done.
Qed.

Lemma wf_New : wf NewShareStore.
Proof. split; intros *; cbn; by rewrite lookup_empty. Qed.

Lemma wf_Delete tok s : wf s -> wf (Delete tok s).
Proof.
  intros [Hk Hinj]. split; cbn.
  - intros tok' p [_ H]%lookup_delete_Some. eauto.
  - intros t1 t2 p [_ H1]%lookup_delete_Some [_ H2]%lookup_delete_Some. eauto.
Qed.

Lemma wf_MarkViewed now tok s s' :
  MarkViewed now tok s = Some s' -> wf s -> wf s'.
Proof.
  intros HM [Hk Hinj]. pose proof (MarkViewed_shares _ _ _ _ HM) as Hs.
  split; rewrite Hs.
  - intros tok' p H. destruct (Hk _ _ H) as [Hl Ha]. split; [done|].
    by eapply MarkViewed_allocated.
  - exact Hinj.
Qed.

(** Under the invariant [MarkViewed] does not panic. *)
Lemma MarkViewed_total now tok s : wf s -> is_Some (MarkViewed now tok s).
Proof.
  intros [Hk _]. unfold MarkViewed.
  destruct (shares s !! tok) as [p|] eqn:E; [|eauto].
  destruct (Hk _ _ E) as [_ [d Hd]]. rewrite Hd. eauto.
Qed.

(** Storing a freshly allocated record under a generated token. *)
Lemma wf_Add_new tok d s :
  String.length tok = 44%nat -> wf s ->
  wf (Add tok (new_ShareData d s).1 (new_ShareData d s).2).
Proof.
  intros Hlen [Hk Hinj].
  assert (Hfresh : forall t, shares s !! t <> Some (length (objs s))).
  { intros t Ht. destruct (Hk _ _ Ht) as [_ Hs].
    apply lookup_lt_is_Some in Hs. lia. }
  split; cbn.
  - intros t p. rewrite lookup_insert. case_decide as E.
    + intros [= <-]. subst t. split; [done|].
      apply lookup_lt_is_Some. rewrite length_app. cbn. lia.
    + intros Ht. destruct (Hk _ _ Ht) as [Hl Hs]. split; [done|].
      apply lookup_lt_is_Some. apply lookup_lt_is_Some in Hs.
      rewrite length_app. lia.
  - intros t1 t2 p. rewrite !lookup_insert.
    repeat case_decide; subst; try done.
    + intros [= <-] H2. by destruct (Hfresh t2).
    + intros H1 [= <-]. by destruct (Hfresh t1).
    + apply Hinj.
Qed.

End StoreMethods.

(** ** The cleanup loop *)

Section Cleanup.

Variables (now : Time) (heap : list ShareData).

Implicit Types (m : gmap string ptr) (l : list (string * ptr)).

(** The loop over the entries still to come, from the map [m] and the
    counter [c]: it never panics, what it removes it counts, it removes
    the expired entries among [l] and leaves every other key alone. *)
Lemma cleanup_loop l :
  NoDup l.*1 ->
  forall m (c : Z),
    (forall k p, (k, p) ∈ l -> m !! k = Some p /\ is_Some (heap !! p)) ->
    exists m' c',
      foldl (cleanup_body now heap) (Some (m, c)) l = Some (m', c')
      /\ c' = c + Z.of_nat (size m) - Z.of_nat (size m')
      /\ (forall k p, (k, p) ∈ l -> expired now heap p = true ->
            m' !! k = None)
      /\ (forall k, (forall p, (k, p) ∈ l -> expired now heap p = false) ->
            m' !! k = m !! k).
Proof.
  induction l as [|[k0 p0] l IH]; intros Hnd m c Hl.
  - exists m, c. cbn. split; [done|]. split; [lia|]. split; [|done].
    intros k p H. by apply elem_of_nil in H.
  - cbn in Hnd. apply NoDup_cons in Hnd as [Hk0 Hnd].
    destruct (Hl k0 p0) as [Hm0 [d0 Hd0]]; [left|].
    assert (Hfresh : forall p, (k0, p) ∈ l -> False).
    { intros p Hp. apply Hk0. apply list_elem_of_fmap. by exists (k0, p). }
    cbn [foldl]. unfold cleanup_body at 2. cbn [fst snd]. rewrite Hd0.
    destruct (After now (ExpiresAt d0)) eqn:Hexp.
    + destruct (IH Hnd (delete k0 m) (c + 1)) as (m' & c' & Hf & Hc & Hi & Hii).
      { intros k p Hkp. destruct (Hl k p) as [Hm Hp]; [by right|].
        split; [|done]. rewrite lookup_delete_ne; [done|].
        intros <-. by eapply Hfresh. }
      exists m', c'. split; [done|]. split.
      { rewrite Hc, map_size_delete_Some by eauto.
        assert (size m <> 0%nat).
        { intros Hz%map_size_empty_inv. subst m. by rewrite lookup_empty in Hm0. }
        lia. }
      split.
      * intros k p [[= -> ->]|Hkp]%elem_of_cons He.
        -- rewrite Hii; [apply lookup_delete_eq|].
           intros p Hp. by destruct (Hfresh p).
        -- by eapply Hi.
      * intros k Hk. rewrite Hii.
        -- apply lookup_delete_ne. intros <-.
           specialize (Hk p0 ltac:(left)). unfold expired in Hk.
           rewrite Hd0 in Hk. congruence.
        -- intros p Hp. apply Hk. by right.
    + destruct (IH Hnd m c) as (m' & c' & Hf & Hc & Hi & Hii).
      { intros k p Hkp. apply Hl. by right. }
      exists m', c'. split; [done|]. split; [done|]. split.
      * intros k p [[= -> ->]|Hkp]%elem_of_cons He.
        -- unfold expired in He. rewrite Hd0 in He. congruence.
        -- by eapply Hi.
      * intros k Hk. apply Hii. intros p Hp. apply Hk. by right.
Qed.

End Cleanup.

(** ** The three handlers, case by case *)

Section Handlers.

Implicit Types (s : ShareStore) (tok token : string) (p : ptr)
  (d : ShareData) (now : Time).

Lemma GetShareHandler_unknown now_check now_mark tok s :
  tok <> EmptyString -> shares s !! tok = None ->
  GetShareHandler now_check now_mark (redeem_request tok) s
  = (Error "Share not found or expired" StatusNotFound, s).
Proof.
  intros Hne Hs. unfold GetShareHandler, redeem_request.
  cbn [Method URL_Path]. rewrite TrimPrefix_share.
  apply String.eqb_neq in Hne. rewrite Hne.
  unfold Get. rewrite Hs. reflexivity.
Qed.

Lemma GetShareHandler_expired now_check now_mark tok s p d :
  tok <> EmptyString ->
  shares s !! tok = Some p -> objs s !! p = Some d ->
  ExpiresAt d < now_check ->
  GetShareHandler now_check now_mark (redeem_request tok) s
  = (Error "Share has expired" StatusGone, Delete tok s).
Proof.
  intros Hne Hs Hd Hexp. unfold GetShareHandler, redeem_request.
  cbn [Method URL_Path]. rewrite TrimPrefix_share.
  apply String.eqb_neq in Hne. rewrite Hne.
  unfold Get, deref. rewrite Hs, Hd.
  unfold After. apply Z.ltb_lt in Hexp. rewrite Hexp. reflexivity.
Qed.

Lemma GetShareHandler_viewed now_check now_mark tok s p d :
  tok <> EmptyString ->
  shares s !! tok = Some p -> objs s !! p = Some d ->
  now_check <= ExpiresAt d -> Viewed d = true ->
  GetShareHandler now_check now_mark (redeem_request tok) s
  = (JSON StatusGone
       (BodyErrorDetails "This share has already been viewed"
          (viewed_details d)), s).
Proof.
  intros Hne Hs Hd Hexp Hv. unfold GetShareHandler, redeem_request.
  cbn [Method URL_Path]. rewrite TrimPrefix_share.
  apply String.eqb_neq in Hne. rewrite Hne.
  unfold Get, deref. rewrite Hs, Hd.
  unfold After. apply Z.ltb_ge in Hexp. rewrite Hexp, Hv. reflexivity.
Qed.

Lemma GetShareHandler_active now_check now_mark tok s p d :
  String.length tok = 44%nat ->
  shares s !! tok = Some p -> objs s !! p = Some d ->
  now_check <= ExpiresAt d -> Viewed d = false ->
  GetShareHandler now_check now_mark (redeem_request tok) s
  = (JSON StatusOK (BodyRetrieve (retrieve_response (set_viewed now_mark d))),
     {| shares := delete tok (shares s);
        objs := <[p := set_viewed now_mark d]> (objs s) |}).
Proof.
  intros Hlen Hs Hd Hexp Hv. unfold GetShareHandler, redeem_request.
  cbn [Method URL_Path]. rewrite TrimPrefix_share.
  rewrite (token_nonempty _ Hlen).
  unfold Get, deref. rewrite Hs, Hd.
  unfold After. apply Z.ltb_ge in Hexp. rewrite Hexp, Hv.
  rewrite (MarkViewed_present _ _ _ _ _ Hs Hd). cbn [objs negb].
  rewrite list_lookup_insert_eq by (by eapply lookup_lt_Some).
  destruct (slice_to_token _ Hlen) as [pre ->]. reflexivity.
Qed.

Lemma DeleteShareHandler_unknown tok s :
  tok <> EmptyString -> shares s !! tok = None ->
  DeleteShareHandler (delete_request tok) s
  = (Error "Share not found" StatusNotFound, s).
Proof.
  intros Hne Hs. unfold DeleteShareHandler, delete_request.
  cbn [Method URL_Path]. rewrite TrimPrefix_share.
  apply String.eqb_neq in Hne. rewrite Hne.
  unfold Get. rewrite Hs. reflexivity.
Qed.

Lemma DeleteShareHandler_present tok s p :
  String.length tok = 44%nat -> shares s !! tok = Some p ->
  DeleteShareHandler (delete_request tok) s
  = (JSON StatusOK (BodyMessage "Share deleted successfully"), Delete tok s).
Proof.
  intros Hlen Hs. unfold DeleteShareHandler, delete_request.
  cbn [Method URL_Path]. rewrite TrimPrefix_share.
  rewrite (token_nonempty _ Hlen).
  unfold Get. rewrite Hs. cbn [negb].
  destruct (slice_to_token _ Hlen) as [pre ->]. reflexivity.
Qed.

Lemma CreateShareHandler_ok baseURL now drawn r req token s :
  Method r = "POST" -> Decode (Body r) = Some req -> valid_request req ->
  generateSecureToken 32 drawn = Some token ->
  CreateShareHandler baseURL now drawn r s
  = (JSON StatusOK
       (BodyShare {| Token := token;
                     ShareURL := baseURL +:+ "/share/" +:+ token;
                     resp_ExpiresAt := ExpiresAt (created_record now req) |}),
     {| shares := <[token := length (objs s)]> (shares s);
        objs := objs s ++ [created_record now req] |}).
Proof.
  intros HM HD (H1 & H2 & H3) HG. unfold CreateShareHandler.
  rewrite HM, HD. cbn [String.eqb Ascii.eqb Bool.eqb negb].
  apply String.eqb_neq in H1, H2, H3. rewrite H1, H2, H3, HG.
  cbn [orb new_ShareData]. unfold deref, Add. cbn [shares objs].
  rewrite lookup_app_r, Nat.sub_diag by lia. cbn [lookup list_lookup].
  destruct (slice_to_token _ (generateSecureToken_length _ _ HG)) as [pre ->].
  reflexivity.
Qed.

(** The record of an accepted create is in the store under the token. *)
Lemma create_record_stored baseURL now drawn o req token s :
  Decode (Some o) = Some req -> valid_request req ->
  generateSecureToken 32 drawn = Some token ->
  exists s',
    CreateShareHandler baseURL now drawn (create_request o) s
    = (JSON StatusOK
         (BodyShare {| Token := token;
                       ShareURL := baseURL +:+ "/share/" +:+ token;
                       resp_ExpiresAt := ExpiresAt (created_record now req) |}),
       s')
    /\ shares s' !! token = Some (length (objs s))
    /\ objs s' !! length (objs s) = Some (created_record now req).
Proof.
  intros HD Hvalid HG. eexists. split; [by apply CreateShareHandler_ok|].
  cbn [shares objs]. split; [apply lookup_insert_eq|].
  rewrite lookup_app_r, Nat.sub_diag by lia. reflexivity.
Qed.

(** After the successful redeem the handle is gone. *)
Lemma active_redeem_gone now_check now_mark tok s p d :
  String.length tok = 44%nat ->
  shares s !! tok = Some p -> objs s !! p = Some d ->
  Viewed d = false -> now_check <= ExpiresAt d ->
  exists s',
    GetShareHandler now_check now_mark (redeem_request tok) s
    = (JSON StatusOK (BodyRetrieve (retrieve_response (set_viewed now_mark d))),
       s')
    /\ shares s' !! tok = None.
Proof.
  intros Hlen Hs Hd Hv Hexp. eexists. split.
  - by apply GetShareHandler_active.
  - apply lookup_delete_eq.
Qed.

End Handlers.

(** ** The invariant holds in every reachable state *)

Section Invariant.

Implicit Types (s : ShareStore) (tok token : string) (p : ptr)
  (d : ShareData) (now : Time).

(** The map after the cleanup loop, key by key. *)
Lemma CleanupExpired_in_lookup order now s :
  wf s -> order ≡ₚ map_to_list (shares s) ->
  exists count s',
    CleanupExpired_in order now s = Some (count, s')
    /\ objs s' = objs s
    /\ count = Z.of_nat (size (shares s)) - Z.of_nat (size (shares s'))
    /\ forall tok,
         shares s' !! tok
         = match shares s !! tok with
           | Some p => if expired now (objs s) p then None else Some p
           | None => None
           end.
Proof.
  intros [Hk _] Hperm.
  assert (Hin : forall k p, (k, p) ∈ order <-> shares s !! k = Some p).
  { intros k p. rewrite Hperm. apply elem_of_map_to_list. }
  destruct (cleanup_loop now (objs s) order) with (m := shares s) (c := 0)
    as (m' & c' & Hf & Hc & Hi & Hii).
  - rewrite Hperm. apply NoDup_fst_map_to_list.
  - intros k p Hkp%Hin. split; [done|]. by destruct (Hk _ _ Hkp).
  - exists c', {| shares := m'; objs := objs s |}.
    unfold CleanupExpired_in. rewrite Hf. cbn [shares objs].
    split; [done|]. split; [done|]. split; [lia|].
    intros tok. destruct (shares s !! tok) as [p|] eqn:E.
    + destruct (expired now (objs s) p) eqn:Ex.
      * apply (Hi tok p); [by apply Hin | done].
      * rewrite Hii; [done|]. intros p' Hp'%Hin. congruence.
    + rewrite Hii; [done|]. intros p' Hp'%Hin. congruence.
Qed.

Lemma wf_CleanupExpired_in order now s count s' :
  wf s -> order ≡ₚ map_to_list (shares s) ->
  CleanupExpired_in order now s = Some (count, s') -> wf s'.
Proof.
  intros Hwf Hperm Hrun.
  destruct (CleanupExpired_in_lookup order now s Hwf Hperm)
    as (c & s1 & Hrun' & Hobjs & _ & Hlk).
  rewrite Hrun in Hrun'. injection Hrun' as <- <-.
  assert (Hsub : forall tok p, shares s' !! tok = Some p ->
                               shares s !! tok = Some p).
  { intros tok p. rewrite Hlk. destruct (shares s !! tok) as [q|]; [|done].
    by destruct (expired now (objs s) q). }
  destruct Hwf as [Hk Hinj]. split.
  - intros tok p H%Hsub. rewrite Hobjs. eauto.
  - intros t1 t2 p H1%Hsub H2%Hsub. eauto.
Qed.

Lemma wf_CreateShareHandler baseURL now drawn r s :
  wf s -> wf (CreateShareHandler baseURL now drawn r s).2.
Proof.
  intros Hwf. unfold CreateShareHandler.
  destruct (negb _); [done|].
  destruct (Decode _) as [req|]; [|done].
  destruct (_ || _ || _); [done|].
  destruct (generateSecureToken 32 drawn) as [token|] eqn:HG; [|done].
  pose proof (wf_Add_new token (created_record now req) s
                (generateSecureToken_length _ _ HG) Hwf) as Hnew.
  cbn [new_ShareData fst snd] in Hnew |- *.
  destruct (deref _ _); [destruct (slice_to _ _)|]; exact Hnew.
Qed.

Lemma wf_GetShareHandler now_check now_mark r s :
  wf s -> wf (GetShareHandler now_check now_mark r s).2.
Proof.
  intros Hwf. unfold GetShareHandler.
  destruct (negb _); [done|].
  destruct (_ =? _)%string; [done|].
  destruct (Get _ s) as [p|]; [|done].
  destruct (deref s p) as [sd|]; [|done].
  destruct (After _ _); [by apply wf_Delete|].
  destruct (Viewed sd); [done|].
  destruct (MarkViewed _ _ s) as [s1|] eqn:HM; [|done].
  apply wf_MarkViewed in HM; [|done].
  destruct (deref s1 p); [|done].
  destruct (slice_to _ _); by apply wf_Delete.
Qed.

Lemma wf_DeleteShareHandler r s :
  wf s -> wf (DeleteShareHandler r s).2.
Proof.
  intros Hwf. unfold DeleteShareHandler.
  destruct (negb _); [done|].
  destruct (_ =? _)%string; [done|].
  destruct (Get _ s) as [p|]; [|done].
  destruct (slice_to _ _); by apply wf_Delete.
Qed.

Lemma reachable_wf s : reachable s -> wf s.
Proof.
  induction 1 as [| | | |s order now count s' _ IH Hperm Hrun].
  - apply wf_New.
  - by apply wf_CreateShareHandler.
  - by apply wf_GetShareHandler.
  - by apply wf_DeleteShareHandler.
  - by eapply wf_CleanupExpired_in.
Qed.

Lemma wf_get_step now t s : wf s -> wf (get_step now t s).2.
Proof.
  intros Hwf. destruct t; cbn [get_step]; try done.
  - by destruct (Get _ _).
  - destruct (deref _ _); [|done]. by destruct (After _ _).
  - by apply wf_Delete.
  - destruct (deref _ _) as [sd|]; [|done]. by destruct (Viewed sd).
  - by destruct (deref _ _).
  - destruct (MarkViewed _ _ _) eqn:HM; [|done]. by eapply wf_MarkViewed.
  - by destruct (deref _ _).
  - by apply wf_Delete.
Qed.

Lemma wf_alt_wf s : wf_alt s -> wf s.
Proof.
  intros [HF HN]. split; [exact HF|].
  intros t1 t2 p H1%elem_of_map_to_list H2%elem_of_map_to_list.
  apply list_elem_of_lookup in H1 as [i Hi], H2 as [j Hj].
  assert (i = j) as ->.
  { eapply NoDup_lookup; [exact HN| |].
    - rewrite list_lookup_fmap, Hi. reflexivity.
    - rewrite list_lookup_fmap, Hj. reflexivity. }
  congruence.
Qed.

End Invariant.

(** The invariant of a concrete store, by computation. *)
Ltac wf_by_computation := apply wf_alt_wf; compute_done.

(** ** A redeem thread run alone is the handler *)

Lemma run_thread_Finished clock resp s :
  run_thread clock (Finished resp) s = (Finished resp, s).
Proof. induction clock as [|now clock IH]; [done|]. cbn. exact IH. Qed.

(** Six steps, the second at [now_check] and the fourth at [now_mark], are
    the sequential handler. *)
Lemma run_thread_GetShareHandler t0 now_check t2 now_mark t4 t5 r s :
  run_thread [t0; now_check; t2; now_mark; t4; t5] (get_thread r) s
  = (Finished (GetShareHandler now_check now_mark r s).1,
     (GetShareHandler now_check now_mark r s).2).
Proof.
  unfold get_thread, GetShareHandler.
  destruct (negb _); [reflexivity|].
  destruct (_ =? _)%string; [reflexivity|].
  set (token := TrimPrefix _ _).
  cbn [run_thread get_step].
  destruct (Get token s) as [p|]; [|reflexivity].
  cbn [run_thread get_step].
  destruct (deref s p) as [sd|] eqn:Hd; [|reflexivity].
  destruct (After now_check (ExpiresAt sd)); [reflexivity|].
  cbn [run_thread get_step]. rewrite Hd.
  destruct (Viewed sd).
  { cbn [run_thread get_step]. rewrite Hd. reflexivity. }
  cbn [run_thread get_step].
  destruct (MarkViewed now_mark token s) as [s1|]; [|reflexivity].
  cbn [run_thread get_step].
  destruct (deref s1 p) as [sd1|]; [|reflexivity].
  cbn [run_thread get_step].
  destruct (slice_to 10 token); reflexivity.
Qed.

(** ** Redeem *)

(** C4.  When the record of a handle is active (not viewed) and its deadline
    has not passed, the redeem returns the payload, the fields of the record
    with [viewed_at] set by this redeem, and in the same call removes the
    record: afterwards the store has no record for the handle, and every
    other handle is as before. *)
Theorem redeem_active_consumes now_check now_mark tok s p d :
  wf s ->
  shares s !! tok = Some p -> objs s !! p = Some d ->
  Viewed d = false -> now_check <= ExpiresAt d ->
  exists s',
    GetShareHandler now_check now_mark (redeem_request tok) s
    = (JSON StatusOK
         (BodyRetrieve
            {| ret_EncryptedPassword := EncryptedPassword d;
               ret_ServiceName := ServiceName d;
               ret_Username := Username d;
               ret_CreatedAt := CreatedAt d;
               ret_ViewedAt := Some now_mark |}), s')
    /\ shares s' !! tok = None
    /\ shares s' = delete tok (shares s)
    /\ wf s'.
Proof.
  intros Hwf Hs Hd Hv Hexp.
  destruct (proj1 Hwf _ _ Hs) as [Hlen _].
  pose proof (GetShareHandler_active now_check now_mark tok s p d
                Hlen Hs Hd Hexp Hv) as Hrun.
  eexists. split; [exact Hrun|]. cbn [shares].
  split; [apply lookup_delete_eq|]. split; [done|].
  pose proof (wf_GetShareHandler now_check now_mark (redeem_request tok) s Hwf)
    as Hwf'.
  by rewrite Hrun in Hwf'.
Qed.

Lemma redeem_active_consumes_witness :
  wf Sample.store2
  /\ shares Sample.store2 !! Sample.token0 = Some 0%nat
  /\ exists s',
       GetShareHandler 3000 3001 (redeem_request Sample.token0) Sample.store2
       = (JSON StatusOK
            (BodyRetrieve
               {| ret_EncryptedPassword := "c2VjcmV0";
                  ret_ServiceName := "Gmail";
                  ret_Username := "a@b.com";
                  ret_CreatedAt := 1000;
                  ret_ViewedAt := Some 3001 |}), s')
       /\ shares s' !! Sample.token0 = None
       /\ shares s' = delete Sample.token0 (shares Sample.store2)
       /\ wf s'.
Proof.
  split; [wf_by_computation|].
  split; [vm_compute; reflexivity|].
  apply (redeem_active_consumes 3000 3001 Sample.token0 Sample.store2 0%nat
           (created_record 1000
              {| req_EncryptedPassword := "c2VjcmV0";
                 req_ServiceName := "Gmail";
                 req_Username := "a@b.com";
                 req_ExpirationHours := 0 |})).
  - wf_by_computation.
  - vm_compute; reflexivity.
  - vm_compute; reflexivity.
  - reflexivity.
  - vm_compute; discriminate.
Defined.

(** C5.  When the record of a handle is in the store and its deadline has
    passed ([expires_at < now]), the redeem answers 410 "Share has expired",
    which carries no payload, and removes the record, whether or not the
    record was viewed before. *)
Theorem redeem_expired_removes now_check now_mark tok s p d :
  wf s ->
  shares s !! tok = Some p -> objs s !! p = Some d ->
  ExpiresAt d < now_check ->
  exists resp s',
    GetShareHandler now_check now_mark (redeem_request tok) s = (resp, s')
    /\ resp = Error "Share has expired" StatusGone
    /\ outcome resp = Expired
    /\ payload_of resp = None
    /\ shares s' !! tok = None
    /\ s' = Delete tok s.
Proof.
  intros Hwf Hs Hd Hexp.
  destruct (proj1 Hwf _ _ Hs) as [Hlen _].
  assert (Hne : tok <> EmptyString) by (intros ->; discriminate).
  do 2 eexists. split.
  - exact (GetShareHandler_expired now_check now_mark tok s p d Hne Hs Hd Hexp).
  - repeat split. apply lookup_delete_eq.
Qed.

Lemma redeem_expired_removes_witness :
  3600000002000 < 3600000002001
  /\ exists resp s',
       GetShareHandler 3600000002001 3600000002002
         (redeem_request Sample.token1) Sample.store2 = (resp, s')
       /\ resp = Error "Share has expired" StatusGone
       /\ outcome resp = Expired
       /\ payload_of resp = None
       /\ shares s' !! Sample.token1 = None
       /\ s' = Delete Sample.token1 Sample.store2.
Proof.
  split; [lia|].
  apply (redeem_expired_removes 3600000002001 3600000002002 Sample.token1
           Sample.store2 1%nat
           (created_record 2000
              {| req_EncryptedPassword := "aHVudGVyMg==";
                 req_ServiceName := "GitHub";
                 req_Username := "octocat";
                 req_ExpirationHours := 1 |})).
  - wf_by_computation.
  - vm_compute; reflexivity.
  - vm_compute; reflexivity.
  - vm_compute; reflexivity.
Defined.

(** C3, as the code has it.  The successful redeem removes the record, so a
    second redeem of the handle finds nothing: it answers 404 and discloses
    nothing.  The already-viewed error is the answer to a redeem that finds
    an unexpired record marked viewed still in the store (between the
    [MarkViewed] and the [Delete] of a redeem in flight), and to no other
    redeem; it carries the service name, the username, created_at and
    viewed_at and an empty encrypted_password, and the store is left as it
    was. *)
Theorem second_redeem_not_found now_check now_mark now_check' now_mark' tok s p d :
  wf s ->
  shares s !! tok = Some p -> objs s !! p = Some d ->
  (Viewed d = false -> now_check <= ExpiresAt d ->
   exists r1 s1,
     GetShareHandler now_check now_mark (redeem_request tok) s = (r1, s1)
     /\ outcome r1 = Payload
     /\ GetShareHandler now_check' now_mark' (redeem_request tok) s1
        = (Error "Share not found or expired" StatusNotFound, s1)
     /\ outcome (GetShareHandler now_check' now_mark' (redeem_request tok) s1).1
        = NotFound
     /\ payload_of (GetShareHandler now_check' now_mark' (redeem_request tok) s1).1
        = None)
  /\ (Viewed d = true -> now_check <= ExpiresAt d ->
      GetShareHandler now_check now_mark (redeem_request tok) s
      = (JSON StatusGone
           (BodyErrorDetails "This share has already been viewed"
              {| ret_EncryptedPassword := "";
                 ret_ServiceName := ServiceName d;
                 ret_Username := Username d;
                 ret_CreatedAt := CreatedAt d;
                 ret_ViewedAt := ViewedAt d |}), s)
      /\ outcome (GetShareHandler now_check now_mark (redeem_request tok) s).1
         = AlreadyViewed
      /\ payload_of (GetShareHandler now_check now_mark (redeem_request tok) s).1
         = None)
  /\ (outcome (GetShareHandler now_check now_mark (redeem_request tok) s).1
      = AlreadyViewed ->
      Viewed d = true /\ now_check <= ExpiresAt d).
Proof.
  intros Hwf Hs Hd.
  destruct (proj1 Hwf _ _ Hs) as [Hlen _].
  assert (Hne : tok <> EmptyString) by (intros ->; discriminate).
  split; [|split].
  - intros Hv Hexp.
    destruct (active_redeem_gone now_check now_mark tok s p d
                Hlen Hs Hd Hv Hexp) as (s1 & Hrun & Hgone).
    exists (JSON StatusOK (BodyRetrieve (retrieve_response (set_viewed now_mark d)))), s1.
    split; [exact Hrun|]. split; [reflexivity|].
    rewrite (GetShareHandler_unknown now_check' now_mark' tok s1 Hne Hgone).
    repeat split.
  - intros Hv Hexp.
    rewrite (GetShareHandler_viewed now_check now_mark tok s p d
               Hne Hs Hd Hexp Hv).
    repeat split.
  - intros Hout.
    destruct (Z.lt_ge_cases (ExpiresAt d) now_check) as [Hlt|Hge].
    + rewrite (GetShareHandler_expired now_check now_mark tok s p d
                 Hne Hs Hd Hlt) in Hout. discriminate.
    + destruct (Viewed d) eqn:Hv; [done|].
      rewrite (GetShareHandler_active now_check now_mark tok s p d
                 Hlen Hs Hd Hge Hv) in Hout. discriminate.
Qed.

Lemma second_redeem_not_found_witness :
  wf Sample.store2
  /\ (exists r1 s1,
        GetShareHandler 3000 3001 (redeem_request Sample.token0) Sample.store2
        = (r1, s1)
        /\ outcome r1 = Payload
        /\ GetShareHandler 4000 4001 (redeem_request Sample.token0) s1
           = (Error "Share not found or expired" StatusNotFound, s1)
        /\ outcome (GetShareHandler 4000 4001 (redeem_request Sample.token0) s1).1
           = NotFound
        /\ payload_of (GetShareHandler 4000 4001 (redeem_request Sample.token0) s1).1
           = None).
Proof.
  split; [wf_by_computation|].
  refine (proj1 (second_redeem_not_found 3000 3001 4000 4001 Sample.token0
                   Sample.store2 0%nat
                   (created_record 1000
                      {| req_EncryptedPassword := "c2VjcmV0";
                         req_ServiceName := "Gmail";
                         req_Username := "a@b.com";
                         req_ExpirationHours := 0 |}) _ _ _) _ _).
  - wf_by_computation.
  - vm_compute; reflexivity.
  - vm_compute; reflexivity.
  - reflexivity.
  - vm_compute; discriminate.
Defined.

(** C3 as stated fails: after a successful first redeem of an unexpired
    handle, the second redeem is [NotFound], not [AlreadyViewed]. *)
Lemma second_redeem_is_not_AlreadyViewed :
  let (r1, s1) :=
    GetShareHandler 3000 3001 (redeem_request Sample.token0) Sample.store2 in
  let (r2, _) := GetShareHandler 4000 4001 (redeem_request Sample.token0) s1 in
  outcome r1 = Payload
  /\ r2 = Error "Share not found or expired" StatusNotFound
  /\ outcome r2 <> AlreadyViewed.
Proof. vm_compute. repeat split. discriminate. Qed.

(** ** Delete *)

(** C8.  The delete removes the record of a handle whatever its state and
    reports whether it was there: 200 when it was, 404 when it was not, in
    which case the store is unchanged.  After a delete the handle is absent;
    a second delete answers 404 and changes nothing, and a redeem of the
    handle answers 404. *)
Theorem delete_contract tok s :
  wf s -> tok <> EmptyString ->
  exists resp s1,
    DeleteShareHandler (delete_request tok) s = (resp, s1)
    /\ (is_Some (shares s !! tok) ->
        resp = JSON StatusOK (BodyMessage "Share deleted successfully"))
    /\ (shares s !! tok = None ->
        resp = Error "Share not found" StatusNotFound /\ s1 = s)
    /\ s1 = Delete tok s
    /\ shares s1 !! tok = None
    /\ DeleteShareHandler (delete_request tok) s1
       = (Error "Share not found" StatusNotFound, s1)
    /\ forall now_check now_mark,
         GetShareHandler now_check now_mark (redeem_request tok) s1
         = (Error "Share not found or expired" StatusNotFound, s1).
Proof.
  intros Hwf Hne.
  assert (Hgone : shares (Delete tok s) !! tok = None) by apply lookup_delete_eq.
  destruct (shares s !! tok) as [p|] eqn:Hs.
  - destruct (proj1 Hwf _ _ Hs) as [Hlen _].
    exists (JSON StatusOK (BodyMessage "Share deleted successfully")), (Delete tok s).
    split; [by eapply DeleteShareHandler_present|].
    split; [done|]. split; [done|]. split; [done|]. split; [done|].
    split; [by apply DeleteShareHandler_unknown|].
    intros. by apply GetShareHandler_unknown.
  - assert (Hid : Delete tok s = s).
    { unfold Delete. rewrite delete_id by done. by destruct s. }
    exists (Error "Share not found" StatusNotFound), s.
    split; [by apply DeleteShareHandler_unknown|].
    split; [by intros [? ?]|]. split; [done|]. split; [done|].
    split; [done|].
    split; [by apply DeleteShareHandler_unknown|].
    intros. by apply GetShareHandler_unknown.
Qed.

Lemma delete_contract_witness :
  wf Sample.store2 /\ Sample.token0 <> EmptyString
  /\ exists resp s1,
       DeleteShareHandler (delete_request Sample.token0) Sample.store2 = (resp, s1)
       /\ (is_Some (shares Sample.store2 !! Sample.token0) ->
           resp = JSON StatusOK (BodyMessage "Share deleted successfully"))
       /\ (shares Sample.store2 !! Sample.token0 = None ->
           resp = Error "Share not found" StatusNotFound /\ s1 = Sample.store2)
       /\ s1 = Delete Sample.token0 Sample.store2
       /\ shares s1 !! Sample.token0 = None
       /\ DeleteShareHandler (delete_request Sample.token0) s1
          = (Error "Share not found" StatusNotFound, s1)
       /\ forall now_check now_mark,
            GetShareHandler now_check now_mark (redeem_request Sample.token0) s1
            = (Error "Share not found or expired" StatusNotFound, s1).
Proof.
  split; [wf_by_computation|].
  split; [discriminate|].
  apply (delete_contract Sample.token0 Sample.store2).
  - wf_by_computation.
  - discriminate.
Defined.

(** ** Cleanup *)

(** C6.  In whatever order [range] produces the entries, [CleanupExpired]
    at time [now] returns, removes every record with [expires_at < now],
    leaves every record with [expires_at >= now] under its handle and
    unchanged, adds nothing, and returns the number of records it removed. *)
Theorem CleanupExpired_exact order now s :
  wf s -> order ≡ₚ map_to_list (shares s) ->
  exists count s',
    CleanupExpired_in order now s = Some (count, s')
    /\ (forall tok p d, shares s !! tok = Some p -> objs s !! p = Some d ->
          ExpiresAt d < now -> shares s' !! tok = None)
    /\ (forall tok p d, shares s !! tok = Some p -> objs s !! p = Some d ->
          now <= ExpiresAt d ->
          shares s' !! tok = Some p /\ objs s' !! p = Some d)
    /\ (forall tok, shares s !! tok = None -> shares s' !! tok = None)
    /\ count = Z.of_nat (size (shares s)) - Z.of_nat (size (shares s'))
    /\ CleanupExpired now s = Some (count, s').
Proof.
  intros Hwf Hperm.
  destruct (CleanupExpired_in_lookup order now s Hwf Hperm)
    as (count & s' & Hrun & Hobjs & Hcount & Hlk).
  exists count, s'. split; [done|].
  split; [|split; [|split; [|split; [done|]]]].
  - intros tok p d Hs Hd Hlt. rewrite Hlk, Hs. unfold expired. rewrite Hd.
    unfold After. apply Z.ltb_lt in Hlt. by rewrite Hlt.
  - intros tok p d Hs Hd Hge. rewrite Hlk, Hs, Hobjs. unfold expired.
    rewrite Hd. unfold After. apply Z.ltb_ge in Hge. by rewrite Hge.
  - intros tok Hs. by rewrite Hlk, Hs.
  - destruct (CleanupExpired_in_lookup (map_to_list (shares s)) now s Hwf
                ltac:(reflexivity))
      as (count2 & s2 & Hrun2 & Hobjs2 & Hcount2 & Hlk2).
    unfold CleanupExpired. rewrite Hrun2.
    assert (Hshares : shares s2 = shares s').
    { apply map_eq. intros tok. by rewrite Hlk, Hlk2. }
    assert (s2 = s') as ->.
    { destruct s2, s'. cbn in *. congruence. }
    do 3 f_equal. lia.
Qed.

Lemma CleanupExpired_exact_witness :
  wf Sample.store2
  /\ exists count s',
       CleanupExpired_in
         [(Sample.token0, 0%nat); (Sample.token1, 1%nat)]
         3600000002001 Sample.store2 = Some (count, s')
       /\ count = 1
       /\ shares s' !! Sample.token0 = Some 0%nat
       /\ shares s' !! Sample.token1 = None.
Proof.
  split; [wf_by_computation|].
  destruct (CleanupExpired_exact
              [(Sample.token0, 0%nat); (Sample.token1, 1%nat)]
              3600000002001 Sample.store2)
    as (count & s' & Hrun & Hgone & Hkept & _ & Hcount & _).
  - wf_by_computation.
  - vm_compute. apply perm_swap.
  - exists count, s'. split; [exact Hrun|].
    assert (Hrun' := Hrun). vm_compute in Hrun'.
    split; [congruence|]. split.
    + refine (proj1 (Hkept Sample.token0 0%nat _ _ _ _)).
      * vm_compute; reflexivity.
      * vm_compute; reflexivity.
      * vm_compute; discriminate.
    + refine (Hgone Sample.token1 1%nat _ _ _ _).
      * vm_compute; reflexivity.
      * vm_compute; reflexivity.
      * vm_compute; reflexivity.
Defined.

(** ** Create *)

Lemma wrap64_small z : MinInt64 <= z <= MaxInt64 -> wrap64 z = z.
Proof.
  unfold wrap64, MinInt64, MaxInt64. intros H.
  rewrite Z.mod_small by lia. lia.
Qed.

Lemma wrap64_range z : MinInt64 <= wrap64 z <= MaxInt64.
Proof.
  unfold wrap64, MinInt64, MaxInt64.
  pose proof (Z.mod_pos_bound (z + 2 ^ 63) (2 ^ 64) ltac:(lia)). lia.
Qed.

(** The largest number of hours whose nanoseconds fit an int64. *)
Lemma hours_fit h : 0 <= h <= 2562047 -> Duration_mul h Hour = h * Hour.
Proof.
  intros H. unfold Duration_mul. apply wrap64_small.
  unfold MinInt64, MaxInt64, Hour, Minute, Second, Nanosecond. lia.
Qed.

Lemma hours_overflow h : 2562047 < h -> Duration_mul h Hour <> h * Hour.
Proof.
  intros H E. pose proof (wrap64_range (h * Hour)) as R.
  unfold Duration_mul in E. rewrite E in R.
  unfold MinInt64, MaxInt64, Hour, Minute, Second, Nanosecond in R. lia.
Qed.

(** C7, as the code has it.  A create request that passes validation
    stores, under the token it returns, a record with [created_at] the time
    of the call.  The TTL is the requested number of hours, replaced by 24
    when it is zero or negative or when the member is absent from the
    request (which decodes to zero); with TTL 0, negative or absent,
    [expires_at] is [created_at] plus 24 hours.  [expires_at] is
    [created_at] plus the effective TTL for every effective TTL up to
    2562047 hours, the largest whose nanoseconds fit the int64
    [time.Duration]; above that the product wraps around and [expires_at]
    is not [created_at] plus the effective TTL. *)
Theorem create_default_ttl baseURL now drawn o req token s :
  Decode (Some o) = Some req -> valid_request req ->
  generateSecureToken 32 drawn = Some token ->
  exists s' p d,
    CreateShareHandler baseURL now drawn (create_request o) s
    = (JSON StatusOK
         (BodyShare {| Token := token;
                       ShareURL := baseURL +:+ "/share/" +:+ token;
                       resp_ExpiresAt := ExpiresAt d |}), s')
    /\ shares s' !! token = Some p /\ objs s' !! p = Some d
    /\ CreatedAt d = now
    /\ req_ExpirationHours req = default 0 (json_expiration_hours o)
    /\ ExpiresAt d
       = GoTime.Add (CreatedAt d) (Duration_mul (effectiveHours req) Hour)
    /\ (req_ExpirationHours req <= 0 ->
        effectiveHours req = 24
        /\ ExpiresAt d = CreatedAt d + 24 * Hour
        /\ ExpiresAt d = CreatedAt d + 86400000000000)
    /\ (0 < req_ExpirationHours req ->
        effectiveHours req = req_ExpirationHours req)
    /\ (effectiveHours req <= 2562047 ->
        ExpiresAt d = CreatedAt d + effectiveHours req * Hour)
    /\ (2562047 < effectiveHours req ->
        ExpiresAt d = CreatedAt d + wrap64 (effectiveHours req * Hour)
        /\ ExpiresAt d <> CreatedAt d + effectiveHours req * Hour).
Proof.
  intros HD Hvalid HG.
  exists {| shares := <[token := length (objs s)]> (shares s);
            objs := objs s ++ [created_record now req] |},
         (length (objs s)), (created_record now req).
  split; [by apply CreateShareHandler_ok|]. cbn [shares objs].
  split; [apply lookup_insert_eq|].
  split; [rewrite lookup_app_r, Nat.sub_diag by lia; reflexivity|].
  split; [reflexivity|].
  split.
  { unfold Decode in HD. destruct (_ && _); [|discriminate].
    by injection HD as <-. }
  split; [reflexivity|].
  assert (Hpos : 0 < effectiveHours req).
  { unfold effectiveHours. destruct (Z.leb_spec (req_ExpirationHours req) 0); lia. }
  split; [|split; [|split]].
  - intros Hle. unfold created_record, effectiveHours. cbn [ExpiresAt CreatedAt].
    apply Z.leb_le in Hle. rewrite Hle. unfold GoTime.Add.
    rewrite hours_fit by lia. repeat split.
  - intros Hgt. unfold effectiveHours.
    destruct (Z.leb_spec (req_ExpirationHours req) 0); [lia|done].
  - intros Hfit. cbn [created_record ExpiresAt CreatedAt]. unfold GoTime.Add.
    rewrite hours_fit by lia. reflexivity.
  - intros Hbig. cbn [created_record ExpiresAt CreatedAt]. unfold GoTime.Add.
    split; [reflexivity|].
    intros E. apply (hours_overflow (effectiveHours req) Hbig). lia.
Qed.

Lemma create_default_ttl_witness :
  exists s' p d,
    CreateShareHandler Sample.baseURL 1000 Sample.zeros
      (create_request Sample.gmail) NewShareStore
    = (JSON StatusOK
         (BodyShare {| Token := Sample.token0;
                       ShareURL := Sample.baseURL +:+ "/share/" +:+ Sample.token0;
                       resp_ExpiresAt := ExpiresAt d |}), s')
    /\ shares s' !! Sample.token0 = Some p /\ objs s' !! p = Some d
    /\ CreatedAt d = 1000
    /\ ExpiresAt d = 1000 + 86400000000000.
Proof.
  destruct (create_default_ttl Sample.baseURL 1000 Sample.zeros Sample.gmail
              {| req_EncryptedPassword := "c2VjcmV0";
                 req_ServiceName := "Gmail";
                 req_Username := "a@b.com";
                 req_ExpirationHours := 0 |}
              Sample.token0 NewShareStore)
    as (s' & p & d & Hrun & Hs & Hd & Hc & _ & _ & Hdef & _).
  - reflexivity.
  - repeat split; discriminate.
  - vm_compute; reflexivity.
  - exists s', p, d. repeat split; try done.
    destruct Hdef as (_ & _ & He); [reflexivity|].
    rewrite He, Hc. reflexivity.
Defined.

(** C7 as stated fails: a create with [expiration_hours = 3000000] is
    accepted, the effective TTL is 3000000 hours, and the stored
    [expires_at] is not [created_at] plus that TTL; it lies before
    [created_at]. *)
Lemma create_ttl_beyond_int64_not_exact :
  let o := {| json_encrypted_password := Some "aHVudGVyMg==";
              json_service_name := Some "GitHub";
              json_username := Some "octocat";
              json_expiration_hours := Some 3000000 |} in
  let (resp, s') :=
    CreateShareHandler Sample.baseURL 2000 Sample.ones (create_request o)
      Sample.store1 in
  exists req d deadline,
    Decode (Some o) = Some req /\ effectiveHours req = 3000000
    /\ resp = JSON StatusOK
                (BodyShare {| Token := Sample.token1;
                              ShareURL := Sample.baseURL +:+ "/share/" +:+ Sample.token1;
                              resp_ExpiresAt := deadline |})
    /\ shares s' !! Sample.token1 = Some 1%nat /\ objs s' !! 1%nat = Some d
    /\ CreatedAt d = 2000
    /\ ExpiresAt d <> CreatedAt d + effectiveHours req * Hour
    /\ ExpiresAt d < CreatedAt d.
Proof.
  vm_compute. do 3 eexists.
  split; [reflexivity|]. split; [reflexivity|]. split; [reflexivity|].
  split; [reflexivity|]. split; [reflexivity|]. split; [reflexivity|].
  split; [discriminate|reflexivity].
Qed.

(** C10, as the code has it.  A positive [expiration_hours] is not clamped
    and not checked against any upper bound: the request is accepted and
    the hours are multiplied by [time.Hour] as an int64.  Up to 2562047 hours
    the product is exact and [expires_at = created_at + h hours]; above, the
    product wraps around and [expires_at] is not [created_at + h hours]. *)
Theorem create_positive_ttl baseURL now drawn o req token s h :
  Decode (Some o) = Some req -> valid_request req ->
  generateSecureToken 32 drawn = Some token ->
  json_expiration_hours o = Some h -> 0 < h ->
  exists s' p d,
    CreateShareHandler baseURL now drawn (create_request o) s
    = (JSON StatusOK
         (BodyShare {| Token := token;
                       ShareURL := baseURL +:+ "/share/" +:+ token;
                       resp_ExpiresAt := ExpiresAt d |}), s')
    /\ shares s' !! token = Some p /\ objs s' !! p = Some d
    /\ CreatedAt d = now
    /\ effectiveHours req = h
    /\ ExpiresAt d = CreatedAt d + wrap64 (h * Hour)
    /\ (h <= 2562047 -> ExpiresAt d = CreatedAt d + h * Hour)
    /\ (2562047 < h -> ExpiresAt d <> CreatedAt d + h * Hour).
Proof.
  intros HD Hvalid HG Ho Hpos.
  destruct (create_record_stored baseURL now drawn o req token s HD Hvalid HG)
    as (s' & Hrun & Hs & Hd).
  assert (Hh : req_ExpirationHours req = h).
  { unfold Decode in HD. destruct (_ && _); [|discriminate].
    injection HD as <-. cbn. by rewrite Ho. }
  assert (He : effectiveHours req = h).
  { unfold effectiveHours. rewrite Hh. destruct (Z.leb_spec h 0); [lia|done]. }
  exists s', (length (objs s)), (created_record now req).
  split; [done|]. split; [done|]. split; [done|].
  split; [reflexivity|]. split; [done|].
  cbn [created_record ExpiresAt CreatedAt]. rewrite He. unfold GoTime.Add.
  split; [reflexivity|]. split.
  - intros Hle. rewrite hours_fit by lia. reflexivity.
  - intros Hgt E. apply (hours_overflow h Hgt). lia.
Qed.

Lemma create_positive_ttl_witness :
  exists s' p d,
    CreateShareHandler Sample.baseURL 2000 Sample.ones
      (create_request Sample.github) Sample.store1
    = (JSON StatusOK
         (BodyShare {| Token := Sample.token1;
                       ShareURL := Sample.baseURL +:+ "/share/" +:+ Sample.token1;
                       resp_ExpiresAt := ExpiresAt d |}), s')
    /\ shares s' !! Sample.token1 = Some p /\ objs s' !! p = Some d
    /\ CreatedAt d = 2000
    /\ ExpiresAt d = 2000 + 1 * Hour.
Proof.
  destruct (create_positive_ttl Sample.baseURL 2000 Sample.ones Sample.github
              {| req_EncryptedPassword := "aHVudGVyMg==";
                 req_ServiceName := "GitHub";
                 req_Username := "octocat";
                 req_ExpirationHours := 1 |}
              Sample.token1 Sample.store1 1)
    as (s' & p & d & Hrun & Hs & Hd & Hc & _ & _ & Hfit & _).
  - reflexivity.
  - repeat split; discriminate.
  - vm_compute; reflexivity.
  - reflexivity.
  - lia.
  - exists s', p, d. repeat split; try done.
    rewrite Hfit, Hc by lia. reflexivity.
Defined.

(** C10 as stated fails: with [expiration_hours = 2562048] the stored
    deadline is not [created_at] plus 2562048 hours; it lies before
    [created_at]. *)
Lemma create_huge_ttl_wraps :
  let o := {| json_encrypted_password := Some "c2VjcmV0";
              json_service_name := Some "Gmail";
              json_username := Some "a@b.com";
              json_expiration_hours := Some 2562048 |} in
  let (resp, s') :=
    CreateShareHandler Sample.baseURL 1000 Sample.zeros (create_request o)
      NewShareStore in
  exists d,
    shares s' !! Sample.token0 = Some 0%nat /\ objs s' !! 0%nat = Some d
    /\ CreatedAt d = 1000
    /\ ExpiresAt d <> CreatedAt d + 2562048 * Hour
    /\ ExpiresAt d = -9223371273709550616
    /\ ExpiresAt d < CreatedAt d.
Proof.
  vm_compute. eexists. split; [reflexivity|]. split; [reflexivity|].
  repeat split; discriminate.
Qed.

(** ** Operations on other handles leave a record alone *)

Section Frame.

Implicit Types (s : ShareStore) (tok token : string) (p : ptr)
  (d : ShareData) (now : Time).

Lemma frame_Delete tok tok' d s :
  tok' <> tok -> holds_record tok d s -> holds_record tok d (Delete tok' s).
Proof.
  intros Hne (p & Hs & Hd). exists p. cbn. by rewrite lookup_delete_ne.
Qed.

Lemma frame_MarkViewed now tok tok' d s s1 :
  wf s -> tok' <> tok -> MarkViewed now tok' s = Some s1 ->
  holds_record tok d s -> holds_record tok d s1.
Proof.
  intros [_ Hinj] Hne HM (p & Hs & Hd). exists p.
  unfold MarkViewed in HM.
  destruct (shares s !! tok') as [p'|] eqn:Hs'; [|by injection HM as <-].
  destruct (objs s !! p') as [d'|]; [|discriminate].
  injection HM as <-. cbn. split; [done|].
  rewrite list_lookup_insert_ne; [done|].
  intros ->. apply Hne. by eapply Hinj.
Qed.

(** What a create does to the store: nothing, or one new record under
    the generated token. *)
Lemma CreateShareHandler_store baseURL now drawn r s :
  (CreateShareHandler baseURL now drawn r s).2 = s
  \/ exists token req,
       generateSecureToken 32 drawn = Some token
       /\ (CreateShareHandler baseURL now drawn r s).2
          = {| shares := <[token := length (objs s)]> (shares s);
               objs := objs s ++ [created_record now req] |}.
Proof.
  unfold CreateShareHandler.
  destruct (negb _); [by left|].
  destruct (Decode _) as [req|]; [|by left].
  destruct (_ || _ || _); [by left|].
  destruct (generateSecureToken 32 drawn) as [token|]; [|by left].
  right. exists token, req. split; [done|].
  cbn [new_ShareData].
  destruct (deref _ _); [destruct (slice_to _ _)|]; reflexivity.
Qed.

Lemma frame_CreateShareHandler baseURL now drawn r tok d s :
  generateSecureToken 32 drawn <> Some tok ->
  holds_record tok d s ->
  holds_record tok d (CreateShareHandler baseURL now drawn r s).2.
Proof.
  intros Hne (p & Hs & Hd).
  destruct (CreateShareHandler_store baseURL now drawn r s)
    as [->|(token & req & HG & ->)]; [by exists p|].
  exists p. cbn. split.
  - rewrite lookup_insert_ne; [done|]. congruence.
  - rewrite lookup_app_l; [done|]. by eapply lookup_lt_Some.
Qed.

Lemma frame_GetShareHandler now_check now_mark r tok d s :
  wf s -> TrimPrefix (URL_Path r) "/api/share/" <> tok ->
  holds_record tok d s ->
  holds_record tok d (GetShareHandler now_check now_mark r s).2.
Proof.
  intros Hwf Hne Hh. unfold GetShareHandler.
  destruct (negb _); [done|].
  destruct (_ =? _)%string; [done|].
  destruct (Get _ s) as [p|]; [|done].
  destruct (deref s p) as [sd|]; [|done].
  destruct (After _ _); [by apply frame_Delete|].
  destruct (Viewed sd); [done|].
  destruct (MarkViewed _ _ s) as [s1|] eqn:HM; [|done].
  eapply frame_MarkViewed in HM; [|done..].
  destruct (deref s1 p); [|done].
  destruct (slice_to _ _); by apply frame_Delete.
Qed.

Lemma frame_DeleteShareHandler r tok d s :
  TrimPrefix (URL_Path r) "/api/share/" <> tok ->
  holds_record tok d s ->
  holds_record tok d (DeleteShareHandler r s).2.
Proof.
  intros Hne Hh. unfold DeleteShareHandler.
  destruct (negb _); [done|].
  destruct (_ =? _)%string; [done|].
  destruct (Get _ s) as [p|]; [|done].
  destruct (slice_to _ _); by apply frame_Delete.
Qed.

Lemma frame_CleanupExpired now tok d s :
  wf s -> now <= ExpiresAt d ->
  holds_record tok d s ->
  holds_record tok d (apply_op (OpCleanup now) s).
Proof.
  intros Hwf Hle (p & Hs & Hd). cbn [apply_op]. unfold CleanupExpired.
  destruct (CleanupExpired_in_lookup (map_to_list (shares s)) now s Hwf
              ltac:(reflexivity))
    as (count & s' & -> & Hobjs & _ & Hlk).
  exists p. rewrite Hlk, Hs, Hobjs. unfold expired. rewrite Hd.
  unfold After. apply Z.ltb_ge in Hle. by rewrite Hle.
Qed.

Lemma wf_apply_op op s : wf s -> wf (apply_op op s).
Proof.
  intros Hwf. destruct op as [baseURL now drawn r|nc nm r|r|now]; cbn.
  - by apply wf_CreateShareHandler.
  - by apply wf_GetShareHandler.
  - by apply wf_DeleteShareHandler.
  - unfold CleanupExpired.
    destruct (CleanupExpired_in _ _ _) as [[count s']|] eqn:E; [|done].
    by eapply wf_CleanupExpired_in.
Qed.

Lemma frame_apply_op op tok d s :
  wf s -> leaves_alone tok (ExpiresAt d) op ->
  holds_record tok d s -> holds_record tok d (apply_op op s).
Proof.
  intros Hwf Hop Hh.
  destruct op as [baseURL now drawn r|nc nm r|r|now]; cbn [leaves_alone] in Hop.
  - by apply frame_CreateShareHandler.
  - by apply frame_GetShareHandler.
  - by apply frame_DeleteShareHandler.
  - by apply frame_CleanupExpired.
Qed.

Lemma frame_run_ops ops tok d :
  Forall (leaves_alone tok (ExpiresAt d)) ops ->
  forall s, wf s -> holds_record tok d s ->
            wf (run_ops ops s) /\ holds_record tok d (run_ops ops s).
Proof.
  induction 1 as [|op ops Hop _ IH]; intros s Hwf Hh; [done|].
  cbn. apply IH.
  - by apply wf_apply_op.
  - by apply frame_apply_op.
Qed.

End Frame.

(** C9.  The payload makes the round trip unchanged.  A create with the
    secret [pw], the service name [sn] and the username [un] at time [now],
    then any operations that neither name nor generate the returned handle
    and no sweep after the deadline, then a redeem before the deadline: the
    redeem succeeds and returns exactly [pw], [sn], [un] and [now] as
    encrypted_password, service_name, username and created_at. *)
Theorem create_redeem_roundtrip baseURL now drawn o req pw sn un token s ops
    now_check now_mark :
  wf s ->
  json_encrypted_password o = Some pw -> json_service_name o = Some sn ->
  json_username o = Some un ->
  pw <> EmptyString -> sn <> EmptyString -> un <> EmptyString ->
  Decode (Some o) = Some req ->
  generateSecureToken 32 drawn = Some token ->
  Forall (leaves_alone token (ExpiresAt (created_record now req))) ops ->
  now_check <= ExpiresAt (created_record now req) ->
  exists deadline s1 s3,
    CreateShareHandler baseURL now drawn (create_request o) s
    = (JSON StatusOK
         (BodyShare {| Token := token;
                       ShareURL := baseURL +:+ "/share/" +:+ token;
                       resp_ExpiresAt := deadline |}), s1)
    /\ GetShareHandler now_check now_mark (redeem_request token)
         (run_ops ops s1)
       = (JSON StatusOK
            (BodyRetrieve
               {| ret_EncryptedPassword := pw;
                  ret_ServiceName := sn;
                  ret_Username := un;
                  ret_CreatedAt := now;
                  ret_ViewedAt := Some now_mark |}), s3)
    /\ shares s3 !! token = None.
Proof.
  intros Hwf Hpw Hsn Hun Npw Nsn Nun HD HG Hops Hexp.
  assert (Hreq : req_EncryptedPassword req = pw /\ req_ServiceName req = sn
                 /\ req_Username req = un).
  { unfold Decode in HD. destruct (_ && _); [|discriminate].
    injection HD as <-. cbn. by rewrite Hpw, Hsn, Hun. }
  destruct Hreq as (Rpw & Rsn & Run).
  assert (Hvalid : valid_request req).
  { unfold valid_request. by rewrite Rpw, Rsn, Run. }
  destruct (create_record_stored baseURL now drawn o req token s HD Hvalid HG)
    as (s1 & Hrun & Hs1 & Hd1).
  assert (Hwf1 : wf s1).
  { pose proof (wf_CreateShareHandler baseURL now drawn (create_request o) s Hwf)
      as H. by rewrite Hrun in H. }
  destruct (frame_run_ops ops token (created_record now req) Hops s1 Hwf1)
    as (Hwf2 & p & Hs2 & Hd2); [by eexists|].
  destruct (active_redeem_gone now_check now_mark token (run_ops ops s1)
              p (created_record now req)) as (s3 & Hget & Hgone); try done.
  { by eapply generateSecureToken_length. }
  exists (ExpiresAt (created_record now req)), s1, s3.
  split; [done|]. split; [|done].
  rewrite Hget. unfold retrieve_response, set_viewed, created_record.
  cbn. by rewrite Rpw, Rsn, Run.
Qed.

Lemma create_redeem_roundtrip_witness :
  exists deadline s1 s3,
    CreateShareHandler Sample.baseURL 1000 Sample.zeros
      (create_request Sample.gmail) NewShareStore
    = (JSON StatusOK
         (BodyShare {| Token := Sample.token0;
                       ShareURL := Sample.baseURL +:+ "/share/" +:+ Sample.token0;
                       resp_ExpiresAt := deadline |}), s1)
    /\ GetShareHandler 3000 3001 (redeem_request Sample.token0)
         (run_ops
            [OpCreate Sample.baseURL 2000 Sample.ones (create_request Sample.github);
             OpCleanup 2500;
             OpGet 2600 2601 (redeem_request Sample.token1);
             OpDelete (delete_request Sample.token1)] s1)
       = (JSON StatusOK
            (BodyRetrieve
               {| ret_EncryptedPassword := "c2VjcmV0";
                  ret_ServiceName := "Gmail";
                  ret_Username := "a@b.com";
                  ret_CreatedAt := 1000;
                  ret_ViewedAt := Some 3001 |}), s3)
    /\ shares s3 !! Sample.token0 = None.
Proof.
  apply (create_redeem_roundtrip Sample.baseURL 1000 Sample.zeros Sample.gmail
           {| req_EncryptedPassword := "c2VjcmV0";
              req_ServiceName := "Gmail";
              req_Username := "a@b.com";
              req_ExpirationHours := 0 |}).
  - apply wf_New.
  - reflexivity.
  - reflexivity.
  - reflexivity.
  - discriminate.
  - discriminate.
  - discriminate.
  - reflexivity.
  - vm_compute; reflexivity.
  - repeat constructor; vm_compute; discriminate.
  - vm_compute; discriminate.
Defined.

(** C2, as the code has it.  The handles in the store are pairwise distinct
    (they are the keys of a map), before and after a create.  A create makes
    no test for a handle already in use: whatever the store holds, the
    request is accepted and the new record is stored under the generated
    handle; a record that was there under that handle is replaced.  Records
    under other handles are not affected. *)
Theorem create_overwrites baseURL now drawn o req token s :
  wf s ->
  Decode (Some o) = Some req -> valid_request req ->
  generateSecureToken 32 drawn = Some token ->
  NoDup (map_to_list (shares s)).*1
  /\ exists deadline s',
       CreateShareHandler baseURL now drawn (create_request o) s
       = (JSON StatusOK
            (BodyShare {| Token := token;
                          ShareURL := baseURL +:+ "/share/" +:+ token;
                          resp_ExpiresAt := deadline |}), s')
       /\ NoDup (map_to_list (shares s')).*1
       /\ holds_record token (created_record now req) s'
       /\ (forall p0, shares s !! token = Some p0 ->
             shares s' !! token <> Some p0)
       /\ (forall tok d, tok <> token -> holds_record tok d s ->
             holds_record tok d s')
       /\ (forall tok, tok <> token -> shares s' !! tok = shares s !! tok).
Proof.
  intros Hwf HD Hvalid HG.
  split; [apply NoDup_fst_map_to_list|].
  destruct (create_record_stored baseURL now drawn o req token s HD Hvalid HG)
    as (s' & Hrun & Hs' & Hd').
  exists (ExpiresAt (created_record now req)), s'.
  split; [done|]. split; [apply NoDup_fst_map_to_list|].
  split; [by eexists|].
  pose proof (CreateShareHandler_ok baseURL now drawn (create_request o) req
                token s eq_refl HD Hvalid HG) as Hrun'.
  rewrite Hrun in Hrun'. injection Hrun' as ->.
  cbn [shares objs]. split; [|split].
  - intros p0 Hp0. rewrite lookup_insert_eq. intros [= <-].
    destruct (proj1 Hwf _ _ Hp0) as [_ Hal].
    apply lookup_lt_is_Some in Hal. lia.
  - intros tok d Hne (p & Hs & Hd). exists p. cbn. split.
    + by rewrite lookup_insert_ne.
    + rewrite lookup_app_l; [done|]. by eapply lookup_lt_Some.
  - intros tok Hne. by rewrite lookup_insert_ne.
Qed.

Lemma create_overwrites_witness :
  wf Sample.store1
  /\ shares Sample.store1 !! Sample.token0 = Some 0%nat
  /\ exists deadline s',
       CreateShareHandler Sample.baseURL 2000 Sample.zeros
         (create_request Sample.github) Sample.store1
       = (JSON StatusOK
            (BodyShare {| Token := Sample.token0;
                          ShareURL := Sample.baseURL +:+ "/share/" +:+ Sample.token0;
                          resp_ExpiresAt := deadline |}), s')
       /\ shares s' !! Sample.token0 <> Some 0%nat.
Proof.
  split; [wf_by_computation|].
  split; [vm_compute; reflexivity|].
  destruct (create_overwrites Sample.baseURL 2000 Sample.zeros Sample.github
              {| req_EncryptedPassword := "aHVudGVyMg==";
                 req_ServiceName := "GitHub";
                 req_Username := "octocat";
                 req_ExpirationHours := 1 |}
              Sample.token0 Sample.store1)
    as (_ & deadline & s' & Hrun & _ & _ & Hrep & _).
  - wf_by_computation.
  - reflexivity.
  - repeat split; discriminate.
  - vm_compute; reflexivity.
  - exists deadline, s'. split; [exact Hrun|].
    apply Hrep. vm_compute; reflexivity.
Defined.

(** C2 as stated fails: the generator delivers for a second create the
    handle of a live record; the create is accepted, and the redeem of the
    first caller's handle returns the second caller's secret. *)
Lemma create_collision_not_rejected :
  let (r1, s1) :=
    CreateShareHandler Sample.baseURL 1000 Sample.zeros
      (create_request Sample.gmail) NewShareStore in
  let (r2, s2) :=
    CreateShareHandler Sample.baseURL 2000 Sample.zeros
      (create_request Sample.github) s1 in
  let (r3, _) := GetShareHandler 3000 3001 (redeem_request Sample.token0) s2 in
  holds_record Sample.token0
    (created_record 1000 (mkShareRequest "c2VjcmV0" "Gmail" "a@b.com" 0)) s1
  /\ r2 = JSON StatusOK
            (BodyShare {| Token := Sample.token0;
                          ShareURL := "http://localhost:8080/share/AAAAAAAAAAAAAAAAAAAAAAAAAAAAAAAAAAAAAAAAAAA=";
                          resp_ExpiresAt := 3600000002000 |})
  /\ ~ holds_record Sample.token0
         (created_record 1000 (mkShareRequest "c2VjcmV0" "Gmail" "a@b.com" 0)) s2
  /\ payload_of r3 = Some "aHVudGVyMg==".
Proof.
  vm_compute. split; [|split; [|split]].
  - exists 0%nat. split; reflexivity.
  - reflexivity.
  - intros (p & Hs & Hd). injection Hs as <-. discriminate.
  - reflexivity.
Qed.

(** ** Two redeems of one handle at the same time *)

Lemma run_schedule_cons e sched cfg :
  run_schedule (e :: sched) cfg = run_schedule sched (sched_step cfg e).
Proof. reflexivity. Qed.

(** Run the next entry of the schedule. *)
Ltac sched_next :=
  rewrite run_schedule_cons; unfold sched_step;
  cbn [fst snd lookup list_lookup get_step insert list_insert].

(** From any store that holds an active, unexpired record under a handle,
    two redeems of that handle that take turns both finish with the
    payload. *)
Lemma race_discloses_twice nc0 nc1 nm0 nm1 tok s p d :
  String.length tok = 44%nat ->
  shares s !! tok = Some p -> objs s !! p = Some d ->
  Viewed d = false -> nc0 <= ExpiresAt d -> nc1 <= ExpiresAt d ->
  exists s' r0 r1,
    run_schedule (race nc0 nc1 nm0 nm1) (s, [AtGet tok; AtGet tok])
    = (s', [Finished r0; Finished r1])
    /\ outcome r0 = Payload /\ outcome r1 = Payload
    /\ payload_of r0 = Some (EncryptedPassword d)
    /\ payload_of r1 = Some (EncryptedPassword d).
Proof.
  intros Hlen Hs Hd Hv H0 H1.
  apply Z.ltb_ge in H0, H1.
  assert (Hp : (p < length (objs s))%nat) by (by eapply lookup_lt_Some).
  destruct (slice_to_token _ Hlen) as [pre Hpre].
  unfold race.
  (* Get, Get *)
  do 2 (sched_next; unfold Get; rewrite Hs).
  (* expiry test, expiry test *)
  sched_next; unfold deref, After; rewrite Hd, H0.
  sched_next; unfold deref, After; rewrite Hd, H1.
  (* viewed test, viewed test *)
  do 2 (sched_next; unfold deref; rewrite Hd, Hv).
  (* MarkViewed, MarkViewed *)
  sched_next. rewrite (MarkViewed_present nm0 tok s p d Hs Hd).
  sched_next. erewrite MarkViewed_present;
    [|exact Hs|cbn [objs]; by apply list_lookup_insert_eq].
  cbn [objs shares]. rewrite list_insert_insert_eq.
  (* response, response *)
  do 2 (sched_next; unfold deref; cbn [objs];
        rewrite list_lookup_insert_eq by done).
  (* Delete, Delete *)
  do 2 (sched_next; rewrite Hpre).
  do 3 eexists. split; [reflexivity|]. repeat split.
Qed.

(** C1 fails on the code.  Two redeems of the fresh, unexpired handle
    [token0] take turns; each call of a store method is atomic, the handler
    as a whole is not.  Both pass the viewed test before either marks the
    record, and both return the secret. *)
Theorem concurrent_redeems_both_get_payload :
  let cfg :=
    run_schedule (race 3000 3000 3001 3001)
      (Sample.store1, [get_thread (redeem_request Sample.token0);
                       get_thread (redeem_request Sample.token0)]) in
  holds_record Sample.token0
    (created_record 1000 (mkShareRequest "c2VjcmV0" "Gmail" "a@b.com" 0))
    Sample.store1
  /\ (delivered <$> cfg.2)
     = [Some (JSON StatusOK
                (BodyRetrieve
                   {| ret_EncryptedPassword := "c2VjcmV0";
                      ret_ServiceName := "Gmail";
                      ret_Username := "a@b.com";
                      ret_CreatedAt := 1000;
                      ret_ViewedAt := Some 3001 |}));
        Some (JSON StatusOK
                (BodyRetrieve
                   {| ret_EncryptedPassword := "c2VjcmV0";
                      ret_ServiceName := "Gmail";
                      ret_Username := "a@b.com";
                      ret_CreatedAt := 1000;
                      ret_ViewedAt := Some 3001 |}))]
  /\ length (filter (fun t => (delivered t ≫= payload_of) = Some "c2VjcmV0")
               cfg.2) = 2%nat
  /\ shares cfg.1 !! Sample.token0 = None.
Proof.
  vm_compute. split; [|split; [|split]]; try reflexivity.
  exists 0%nat. split; reflexivity.
Qed.

(** * Further properties of the store and the handlers *)

(** ** The store methods *)

(** X1.  [GetAll] returns a map with exactly the entries of the store: the
    same handles, bound to the same records (the copy is shallow). *)
Theorem GetAll_same_entries s : GetAll s = shares s.
Proof.
  unfold GetAll.
  apply (map_fold_weak_ind (fun r m => r = m)); [done|].
  intros i x m r _ ->. done.
Qed.

(** X2.  [MarkViewed] on a handle of the store marks the record of that
    handle viewed at [now] and changes nothing else: the map is the same,
    the secret, the metadata and the deadlines of the record are the same,
    and the record of every other handle is as it was.  On a handle that is
    not in the store it does nothing. *)
Theorem MarkViewed_marks_one_record now tok s :
  wf s ->
  (shares s !! tok = None -> MarkViewed now tok s = Some s)
  /\ (forall p d, shares s !! tok = Some p -> objs s !! p = Some d ->
        exists s' d',
          MarkViewed now tok s = Some s'
          /\ shares s' = shares s
          /\ objs s' !! p = Some d'
          /\ Viewed d' = true /\ ViewedAt d' = Some now
          /\ same_record_later d d'
          /\ length (objs s') = length (objs s)
          /\ forall tok' d0, tok' <> tok -> holds_record tok' d0 s ->
                             holds_record tok' d0 s').
Proof.
  intros Hwf. split.
  - intros Hs. unfold MarkViewed. by rewrite Hs.
  - intros p d Hs Hd.
    pose proof (MarkViewed_present now tok s p d Hs Hd) as HM.
    eexists _, (set_viewed now d). split; [exact HM|]. cbn [shares objs].
    split; [done|].
    split; [apply list_lookup_insert_eq; by eapply lookup_lt_Some|].
    split; [done|]. split; [done|].
    split; [by repeat split|].
    split; [apply length_insert|].
    intros tok' d0 Hne Hh. by eapply frame_MarkViewed.
Qed.

Lemma MarkViewed_marks_one_record_witness :
  wf Sample.store2
  /\ exists s' d',
       MarkViewed 3001 Sample.token0 Sample.store2 = Some s'
       /\ shares s' = shares Sample.store2
       /\ objs s' !! 0%nat = Some d'
       /\ Viewed d' = true /\ ViewedAt d' = Some 3001
       /\ EncryptedPassword d' = "c2VjcmV0".
Proof.
  split; [wf_by_computation|].
  destruct (proj2 (MarkViewed_marks_one_record 3001 Sample.token0 Sample.store2
                     ltac:(wf_by_computation))
              0%nat
              (created_record 1000 (mkShareRequest "c2VjcmV0" "Gmail" "a@b.com" 0)))
    as (s' & d' & HM & Hs & Hd & Hv & Hva & (Hpw & _) & _).
  - vm_compute; reflexivity.
  - vm_compute; reflexivity.
  - exists s', d'. repeat split; done.
Defined.

(** X3.  A sweep leaves nothing for a second sweep at the same or an earlier
    time: that one removes no record, returns 0 and leaves the store as it
    is. *)
Theorem CleanupExpired_idempotent now now' s count s' :
  wf s -> CleanupExpired now s = Some (count, s') -> now' <= now ->
  CleanupExpired now' s' = Some (0, s').
Proof.
  intros Hwf Hrun Hle.
  assert (Hwf' : wf s').
  { eapply wf_CleanupExpired_in; [exact Hwf|reflexivity|exact Hrun]. }
  destruct (CleanupExpired_in_lookup (map_to_list (shares s)) now s Hwf
              ltac:(reflexivity)) as (c1 & s1 & Hrun1 & Hobjs1 & _ & Hlk1).
  unfold CleanupExpired in Hrun. rewrite Hrun in Hrun1.
  injection Hrun1 as <- <-.
  destruct (CleanupExpired_in_lookup (map_to_list (shares s')) now' s' Hwf'
              ltac:(reflexivity)) as (c2 & s2 & Hrun2 & Hobjs2 & Hc2 & Hlk2).
  unfold CleanupExpired. rewrite Hrun2.
  assert (Hshares : shares s2 = shares s').
  { apply map_eq. intros tok. rewrite Hlk2.
    destruct (shares s' !! tok) as [p|] eqn:E; [|done].
    rewrite Hlk1 in E. destruct (shares s !! tok) as [q|]; [|done].
    destruct (expired now (objs s) q) eqn:Ex; [done|].
    injection E as ->. rewrite Hobjs1.
    unfold expired, After in Ex |- *. destruct (objs s !! p) as [d|]; [|done].
    apply Z.ltb_ge in Ex. destruct (Z.ltb_spec (ExpiresAt d) now'); [lia|done]. }
  assert (s2 = s') as ->.
  { destruct s2, s'. cbn in *. congruence. }
  do 2 f_equal. lia.
Qed.

Lemma CleanupExpired_idempotent_witness :
  exists count s',
    CleanupExpired 3600000002001 Sample.store2 = Some (count, s')
    /\ count = 1
    /\ CleanupExpired 3600000002001 s' = Some (0, s').
Proof.
  destruct (CleanupExpired 3600000002001 Sample.store2) as [[count s']|] eqn:E;
    [|vm_compute in E; discriminate].
  exists count, s'. split; [reflexivity|]. split.
  - vm_compute in E. congruence.
  - apply (CleanupExpired_idempotent 3600000002001 3600000002001
             Sample.store2 count s').
    + wf_by_computation.
    + exact E.
    + lia.
Defined.

(** ** Redeem *)

(** X4.  Whatever the request and the store, a redeem that discloses a
    secret was a GET for a handle of the store whose record was not viewed
    and not past its deadline; the secret is the one of that record, and the
    handle is gone afterwards. *)
Theorem redeem_discloses_only_active now_check now_mark r s resp s' x :
  GetShareHandler now_check now_mark r s = (resp, s') ->
  payload_of resp = Some x ->
  Method r = "GET"
  /\ exists p d,
       shares s !! TrimPrefix (URL_Path r) "/api/share/" = Some p
       /\ objs s !! p = Some d
       /\ Viewed d = false /\ now_check <= ExpiresAt d
       /\ x = EncryptedPassword d
       /\ outcome resp = Payload
       /\ shares s' !! TrimPrefix (URL_Path r) "/api/share/" = None.
Proof.
  unfold GetShareHandler.
  destruct (Method r =? "GET")%string eqn:HM; cbn [negb];
    [|intros [= <- <-]; discriminate].
  apply String.eqb_eq in HM.
  set (token := TrimPrefix _ _).
  destruct (token =? "")%string; [intros [= <- <-]; discriminate|].
  unfold Get, deref.
  destruct (shares s !! token) as [p|] eqn:Hs; [|intros [= <- <-]; discriminate].
  destruct (objs s !! p) as [d|] eqn:Hd; [|intros [= <- <-]; discriminate].
  unfold After. destruct (Z.ltb_spec (ExpiresAt d) now_check) as [Hlt|Hge];
    [intros [= <- <-]; discriminate|].
  destruct (Viewed d) eqn:Hv; [intros [= <- <-]; discriminate|].
  rewrite (MarkViewed_present now_mark token s p d Hs Hd). cbn [objs].
  rewrite list_lookup_insert_eq by (by eapply lookup_lt_Some).
  destruct (slice_to 10 token); intros [= <- <-]; [|discriminate].
  cbn. intros [= <-]. split; [done|]. exists p, d.
  repeat split; try done. apply lookup_delete_eq.
Qed.

Lemma redeem_discloses_only_active_witness :
  exists p d,
    shares Sample.store2 !! Sample.token0 = Some p
    /\ objs Sample.store2 !! p = Some d
    /\ Viewed d = false /\ 3000 <= ExpiresAt d
    /\ "c2VjcmV0" = EncryptedPassword d.
Proof.
  destruct (GetShareHandler 3000 3001 (redeem_request Sample.token0)
              Sample.store2) as [resp s'] eqn:E.
  destruct (redeem_discloses_only_active 3000 3001
              (redeem_request Sample.token0) Sample.store2 resp s' "c2VjcmV0" E)
    as (_ & p & d & Hs & Hd & Hv & Hexp & Hx & _).
  - vm_compute in E. injection E as <- _. reflexivity.
  - exists p, d. unfold redeem_request in Hs. cbn [URL_Path] in Hs.
    rewrite TrimPrefix_share in Hs. done.
Defined.

(** X5.  On a store that satisfies the invariant, a redeem changes the store
    only when it returns the payload or reports the handle expired; every
    other answer (unknown handle, already viewed, no token, wrong method)
    leaves the store exactly as it was.  In every case the records of the
    other handles stay in place. *)
Theorem redeem_touches_only_its_handle now_check now_mark r s :
  wf s ->
  let resp := (GetShareHandler now_check now_mark r s).1 in
  let s' := (GetShareHandler now_check now_mark r s).2 in
  (outcome resp <> Payload -> outcome resp <> Expired -> s' = s)
  /\ (forall tok, tok <> TrimPrefix (URL_Path r) "/api/share/" ->
        shares s' !! tok = shares s !! tok)
  /\ (forall tok d, tok <> TrimPrefix (URL_Path r) "/api/share/" ->
        holds_record tok d s -> holds_record tok d s').
Proof.
  intros Hwf resp s'. subst resp s'. split; [|split].
  - unfold GetShareHandler.
    destruct (negb _); [done|].
    set (token := TrimPrefix _ _).
    destruct (token =? "")%string; [done|].
    unfold Get, deref.
    destruct (shares s !! token) as [p|] eqn:Hs; [|done].
    destruct (proj1 Hwf _ _ Hs) as [Hlen [d Hd]]. rewrite Hd.
    destruct (After _ _); [cbn; done|].
    destruct (Viewed d); [done|].
    rewrite (MarkViewed_present now_mark token s p d Hs Hd). cbn [objs].
    rewrite list_lookup_insert_eq by (by eapply lookup_lt_Some).
    destruct (slice_to_token _ Hlen) as [pre ->]. cbn. done.
  - intros tok Hne. unfold GetShareHandler.
    destruct (negb _); [done|].
    set (token := TrimPrefix _ _) in *.
    destruct (token =? "")%string; [done|].
    destruct (Get token s) as [p|]; [|done].
    destruct (deref s p) as [d|]; [|done].
    destruct (After _ _); [cbn; by rewrite lookup_delete_ne|].
    destruct (Viewed d); [done|].
    destruct (MarkViewed now_mark token s) as [s1|] eqn:HM; [|done].
    apply MarkViewed_shares in HM.
    destruct (deref s1 p); [|by rewrite <- HM].
    destruct (slice_to 10 token); cbn; by rewrite lookup_delete_ne, HM.
  - intros tok d Hne Hh. by apply frame_GetShareHandler.
Qed.

Lemma redeem_touches_only_its_handle_witness :
  wf Sample.store2
  /\ shares (GetShareHandler 3000 3001 (redeem_request Sample.token0)
               Sample.store2).2 !! Sample.token1
     = shares Sample.store2 !! Sample.token1.
Proof.
  split; [wf_by_computation|].
  apply (redeem_touches_only_its_handle 3000 3001
           (redeem_request Sample.token0) Sample.store2).
  - wf_by_computation.
  - vm_compute; discriminate.
Defined.

Lemma get_never_panics now_check now_mark r s :
  wf s -> (GetShareHandler now_check now_mark r s).1 <> Aborted.
Proof.
  intros Hwf. unfold GetShareHandler.
  destruct (negb _); [done|].
  set (token := TrimPrefix _ _).
  destruct (token =? "")%string; [done|].
  unfold Get, deref.
  destruct (shares s !! token) as [p|] eqn:Hs; [|done].
  destruct (proj1 Hwf _ _ Hs) as [Hlen [d Hd]]. rewrite Hd.
  destruct (After _ _); [done|].
  destruct (Viewed d); [done|].
  rewrite (MarkViewed_present now_mark token s p d Hs Hd). cbn [objs].
  rewrite list_lookup_insert_eq by (by eapply lookup_lt_Some).
  by destruct (slice_to_token _ Hlen) as [pre ->].
Qed.

Lemma delete_never_panics r s :
  wf s -> (DeleteShareHandler r s).1 <> Aborted.
Proof.
  intros Hwf. unfold DeleteShareHandler.
  destruct (negb _); [done|].
  set (token := TrimPrefix _ _).
  destruct (token =? "")%string; [done|].
  unfold Get.
  destruct (shares s !! token) as [p|] eqn:Hs; [|done].
  destruct (proj1 Hwf _ _ Hs) as [Hlen _].
  by destruct (slice_to_token _ Hlen) as [pre ->].
Qed.

(** X6.  No handler panics: on a store that satisfies the invariant, and so
    on every reachable store, neither the redeem nor the delete handler
    dereferences a nil pointer or slices a token out of range, whatever the
    request; the create handler does not on any store. *)
Theorem handlers_never_panic baseURL now drawn now_check now_mark r s :
  wf s ->
  (GetShareHandler now_check now_mark r s).1 <> Aborted
  /\ (DeleteShareHandler r s).1 <> Aborted
  /\ (CreateShareHandler baseURL now drawn r s).1 <> Aborted.
Proof.
  intros Hwf. split; [by apply get_never_panics|].
  split; [by apply delete_never_panics|].
  unfold CreateShareHandler.
  destruct (negb _); [done|].
  destruct (Decode _) as [req|]; [|done].
  destruct (_ || _ || _); [done|].
  destruct (generateSecureToken 32 drawn) as [token|] eqn:HG; [|done].
  cbn [new_ShareData]. unfold deref, Add. cbn [objs].
  rewrite lookup_app_r, Nat.sub_diag by lia. cbn [lookup list_lookup].
  by destruct (slice_to_token _ (generateSecureToken_length _ _ HG))
    as [pre ->].
Qed.

Lemma handlers_never_panic_witness :
  wf Sample.store2
  /\ (GetShareHandler 3000 3001 (redeem_request Sample.token0)
        Sample.store2).1 <> Aborted.
Proof.
  split; [wf_by_computation|].
  apply (handlers_never_panic Sample.baseURL 0 None 3000 3001
           (redeem_request Sample.token0) Sample.store2).
  wf_by_computation.
Defined.

(** X7.  Redeems of one handle that run one after the other: when the
    record is active and the first redeem comes before the deadline, the
    first returns the payload and every later one, whenever it comes, is
    answered 404; the handle is absent at the end. *)
Theorem redeem_repeatedly_once now_check now_mark clock tok s p d :
  wf s ->
  shares s !! tok = Some p -> objs s !! p = Some d ->
  Viewed d = false -> now_check <= ExpiresAt d ->
  exists s',
    redeem_repeatedly ((now_check, now_mark) :: clock) tok s
    = (JSON StatusOK (BodyRetrieve (retrieve_response (set_viewed now_mark d)))
       :: replicate (length clock)
            (Error "Share not found or expired" StatusNotFound), s')
    /\ shares s' !! tok = None.
Proof.
  intros Hwf Hs Hd Hv Hexp.
  destruct (proj1 Hwf _ _ Hs) as [Hlen _].
  assert (Hne : tok <> EmptyString) by (intros ->; discriminate).
  destruct (active_redeem_gone now_check now_mark tok s p d Hlen Hs Hd Hv Hexp)
    as (s1 & Hrun & Hgone).
  exists s1. cbn [redeem_repeatedly]. rewrite Hrun.
  assert (Hrest : redeem_repeatedly clock tok s1
                  = (replicate (length clock)
                       (Error "Share not found or expired" StatusNotFound), s1)).
  { induction clock as [|[nc nm] clock IH]; [done|].
    cbn [redeem_repeatedly length replicate].
    rewrite (GetShareHandler_unknown nc nm tok s1 Hne Hgone), IH. done. }
  by rewrite Hrest.
Qed.

Lemma redeem_repeatedly_once_witness :
  exists s',
    redeem_repeatedly [(3000, 3001); (4000, 4001); (5000, 5001)]
      Sample.token0 Sample.store2
    = (JSON StatusOK
         (BodyRetrieve
            (retrieve_response
               (set_viewed 3001
                  (created_record 1000
                     (mkShareRequest "c2VjcmV0" "Gmail" "a@b.com" 0)))))
       :: replicate 2 (Error "Share not found or expired" StatusNotFound), s')
    /\ shares s' !! Sample.token0 = None.
Proof.
  apply (redeem_repeatedly_once 3000 3001 [(4000, 4001); (5000, 5001)]
           Sample.token0 Sample.store2 0%nat).
  - wf_by_computation.
  - vm_compute; reflexivity.
  - vm_compute; reflexivity.
  - reflexivity.
  - vm_compute; discriminate.
Defined.

(** ** What no operation does to a record *)

Lemma same_record_later_refl d : same_record_later d d.
Proof. by repeat split. Qed.

Lemma same_record_later_trans d1 d2 d3 :
  same_record_later d1 d2 -> same_record_later d2 d3 ->
  same_record_later d1 d3.
Proof.
  intros (A1 & A2 & A3 & A4 & A5 & A6) (B1 & B2 & B3 & B4 & B5 & B6).
  repeat split; try congruence. auto.
Qed.

Lemma MarkViewed_keeps_records now tok s s1 p d :
  MarkViewed now tok s = Some s1 -> objs s !! p = Some d ->
  exists d', objs s1 !! p = Some d' /\ same_record_later d d'.
Proof.
  unfold MarkViewed.
  destruct (shares s !! tok) as [q|];
    [|intros [= <-] Hd; exists d; split; [done|apply same_record_later_refl]].
  destruct (objs s !! q) as [dq|] eqn:Hq; [|discriminate].
  intros [= <-] Hd. cbn [objs]. destruct (decide (q = p)) as [Heq|Hne].
  - subst q. assert (Some dq = Some d) as [= ->] by (rewrite <- Hq; exact Hd).
    exists (set_viewed now d).
    rewrite list_lookup_insert_eq by (by eapply lookup_lt_Some).
    split; [done|by repeat split].
  - exists d. rewrite list_lookup_insert_ne by done.
    split; [done|apply same_record_later_refl].
Qed.

Lemma apply_op_keeps_records op s p d :
  objs s !! p = Some d ->
  exists d', objs (apply_op op s) !! p = Some d' /\ same_record_later d d'.
Proof.
  intros Hd.
  assert (Hsame : exists d', objs s !! p = Some d' /\ same_record_later d d')
    by (exists d; split; [done|apply same_record_later_refl]).
  destruct op as [baseURL now drawn r|nc nm r|r|now]; cbn [apply_op].
  - destruct (CreateShareHandler_store baseURL now drawn r s)
      as [->|(token & req & _ & ->)]; [done|].
    exists d. cbn. split; [|apply same_record_later_refl].
    rewrite lookup_app_l; [done|]. by eapply lookup_lt_Some.
  - unfold GetShareHandler.
    destruct (negb _); [done|].
    destruct (_ =? _)%string; [done|].
    destruct (Get _ s) as [q|]; [|done].
    destruct (deref s q) as [sd|]; [|done].
    destruct (After _ _); [done|].
    destruct (Viewed sd); [done|].
    destruct (MarkViewed _ _ s) as [s1|] eqn:HM; [|done].
    destruct (MarkViewed_keeps_records _ _ _ _ _ _ HM Hd) as (d' & Hd' & Hl).
    destruct (deref s1 q); [destruct (slice_to _ _)|]; by exists d'.
  - unfold DeleteShareHandler.
    destruct (negb _); [done|].
    destruct (_ =? _)%string; [done|].
    destruct (Get _ s); [|done].
    by destruct (slice_to _ _).
  - unfold CleanupExpired, CleanupExpired_in.
    destruct (foldl _ _ _) as [[m count]|]; done.
Qed.

(** X8.  No sequence of creates, redeems, deletes and sweeps removes a
    record from the heap or rewrites it: its secret, service name, username,
    creation time and deadline stay what they were, and a record that was
    viewed stays viewed.  (The operations only unlink records from the
    map.) *)
Theorem records_never_rewritten ops s p d :
  objs s !! p = Some d ->
  exists d', objs (run_ops ops s) !! p = Some d' /\ same_record_later d d'.
Proof.
  revert s d. induction ops as [|op ops IH]; intros s d Hd.
  - exists d. split; [done|apply same_record_later_refl].
  - cbn. destruct (apply_op_keeps_records op s p d Hd) as (d1 & Hd1 & H1).
    destruct (IH _ _ Hd1) as (d2 & Hd2 & H2).
    exists d2. split; [done|]. by eapply same_record_later_trans.
Qed.

Lemma records_never_rewritten_witness :
  exists d',
    objs (run_ops [OpGet 3000 3001 (redeem_request Sample.token0);
                   OpCleanup 9999999999999999;
                   OpDelete (delete_request Sample.token1)] Sample.store2)
      !! 0%nat = Some d'
    /\ EncryptedPassword d' = "c2VjcmV0".
Proof.
  destruct (records_never_rewritten
              [OpGet 3000 3001 (redeem_request Sample.token0);
               OpCleanup 9999999999999999;
               OpDelete (delete_request Sample.token1)] Sample.store2 0%nat
              (created_record 1000 (mkShareRequest "c2VjcmV0" "Gmail" "a@b.com" 0)))
    as (d' & Hd' & Hpw & _).
  - vm_compute; reflexivity.
  - exists d'. split; [exact Hd'|exact Hpw].
Defined.

(** ** Delete *)

(** X9.  The delete handler changes the store only when it answers 200, and
    then it unlinks the handle named in the request and nothing else: the
    heap is untouched and every other handle keeps its record.  It answers
    200 exactly when the method is DELETE, the token is not empty and the
    handle is in the store. *)
Theorem DeleteShareHandler_only_named r s :
  wf s ->
  let token := TrimPrefix (URL_Path r) "/api/share/" in
  let resp := (DeleteShareHandler r s).1 in
  let s' := (DeleteShareHandler r s).2 in
  (resp = JSON StatusOK (BodyMessage "Share deleted successfully")
   <-> Method r = "DELETE" /\ token <> EmptyString /\ is_Some (shares s !! token))
  /\ (resp = JSON StatusOK (BodyMessage "Share deleted successfully") ->
      s' = Delete token s)
  /\ (resp <> JSON StatusOK (BodyMessage "Share deleted successfully") ->
      s' = s)
  /\ objs s' = objs s
  /\ (forall tok, tok <> token -> shares s' !! tok = shares s !! tok).
Proof.
  intros Hwf token resp s'. subst resp s'. unfold DeleteShareHandler.
  fold token.
  destruct (Method r =? "DELETE")%string eqn:HM; cbn [negb].
  2:{ apply String.eqb_neq in HM. cbn.
      split; [split; [done|by intros [? _]]|]. done. }
  apply String.eqb_eq in HM.
  destruct (token =? "")%string eqn:HT.
  { apply String.eqb_eq in HT. cbn.
    split; [split; [done|by intros (_ & ? & _)]|]. done. }
  apply String.eqb_neq in HT. unfold Get.
  destruct (shares s !! token) as [p|] eqn:Hs.
  - destruct (proj1 Hwf _ _ Hs) as [Hlen _].
    destruct (slice_to_token _ Hlen) as [pre ->]. cbn.
    split; [split; [eauto|done]|].
    split; [done|]. split; [done|]. split; [done|].
    intros tok Hne. by rewrite lookup_delete_ne.
  - cbn. split; [split; [done|]|done].
    intros (_ & _ & [? ?]). done.
Qed.

Lemma DeleteShareHandler_only_named_witness :
  wf Sample.store2
  /\ shares (DeleteShareHandler (delete_request Sample.token0)
               Sample.store2).2 !! Sample.token1
     = shares Sample.store2 !! Sample.token1.
Proof.
  split; [wf_by_computation|].
  apply (DeleteShareHandler_only_named (delete_request Sample.token0)
           Sample.store2).
  - wf_by_computation.
  - vm_compute; discriminate.
Defined.

(** ** Create *)

Lemma valid_request_bool req :
  (req_EncryptedPassword req =? "")%string
  || (req_ServiceName req =? "")%string
  || (req_Username req =? "")%string = false
  <-> valid_request req.
Proof.
  unfold valid_request. rewrite !orb_false_iff, !String.eqb_neq. tauto.
Qed.

(** X10.  The create handler answers 200 exactly when the request is a POST
    whose body decodes, whose three fields are all non-empty, and for which
    the entropy source delivers a token.  Every other request is answered
    with an error (405, 400 or 500) and leaves the store exactly as it was;
    in particular a failing entropy source gives 500 and stores nothing. *)
Theorem CreateShareHandler_accepts_iff baseURL now drawn r s :
  let resp := (CreateShareHandler baseURL now drawn r s).1 in
  let s' := (CreateShareHandler baseURL now drawn r s).2 in
  ((exists body, resp = JSON StatusOK body)
   <-> Method r = "POST"
       /\ exists req, Decode (Body r) = Some req /\ valid_request req
                      /\ is_Some (generateSecureToken 32 drawn))
  /\ ((forall body, resp <> JSON StatusOK body) ->
      s' = s
      /\ exists msg code,
           resp = Error msg code
           /\ (code = StatusMethodNotAllowed \/ code = StatusBadRequest
               \/ code = StatusInternalServerError))
  /\ (generateSecureToken 32 drawn = None ->
      s' = s /\ forall body, resp <> JSON StatusOK body).
Proof.
  intros resp s'. subst resp s'. unfold CreateShareHandler.
  destruct (Method r =? "POST")%string eqn:HM; cbn [negb].
  2:{ apply String.eqb_neq in HM. cbn. split; [|split].
      - split; [by intros [? ?]|by intros [? _]].
      - intros _. split; [done|]. do 2 eexists. split; [done|]. by left.
      - done. }
  apply String.eqb_eq in HM.
  destruct (Decode (Body r)) as [req|] eqn:HD.
  2:{ cbn. split; [|split].
      - split; [by intros [? ?]|by intros (_ & ? & ? & _)].
      - intros _. split; [done|]. do 2 eexists. split; [done|]. right; by left.
      - done. }
  destruct (_ || _ || _) eqn:HV.
  { assert (~ valid_request req) as Hnv.
    { intros Hv%valid_request_bool. congruence. }
    cbn. split; [|split].
    - split; [by intros [? ?]|]. intros (_ & req' & [= <-] & Hv & _). done.
    - intros _. split; [done|]. do 2 eexists. split; [done|]. right; by left.
    - done. }
  apply valid_request_bool in HV.
  destruct (generateSecureToken 32 drawn) as [token|] eqn:HG.
  2:{ cbn. split; [|split].
      - split; [by intros [? ?]|]. intros (_ & ? & _ & _ & [? ?]). done.
      - intros _. split; [done|]. do 2 eexists. split; [done|]. right; by right.
      - done. }
  cbn [new_ShareData]. unfold deref, Add. cbn [objs].
  rewrite lookup_app_r, Nat.sub_diag by lia. cbn [lookup list_lookup].
  destruct (slice_to_token _ (generateSecureToken_length _ _ HG)) as [pre ->].
  cbn. split; [|split].
  - split; [|by eexists]. intros _. split; [done|]. exists req. eauto.
  - intros Hno. by destruct (Hno (BodyShare
      {| Token := token; ShareURL := baseURL +:+ "/share/" +:+ token;
         resp_ExpiresAt := GoTime.Add now (Duration_mul (effectiveHours req) Hour) |})).
  - done.
Qed.

(** ** The token *)

Lemma get_list_ascii (s : string) n :
  String.get n s = list_ascii_of_string s !! n.
Proof.
  revert n. induction s as [|c s IH]; intros [|n]; cbn; done.
Qed.

Lemma sextet_index val shift :
  (N.to_nat (N.land (N.shiftr val shift) 63) < 64)%nat.
Proof.
  change 63%N with (N.ones 6). rewrite N.land_ones.
  pose proof (N.mod_upper_bound (N.shiftr val shift) (2 ^ 6) ltac:(done)) as H.
  change (2 ^ 6)%N with 64%N in *. lia.
Qed.

(** Each character the encoder emits for six bits is in the alphabet. *)
Lemma sextet_alphabet val shift :
  Base64.sextet val shift ∈ list_ascii_of_string Base64.encodeURL.
Proof.
  unfold Base64.sextet. rewrite get_list_ascii.
  pose proof (sextet_index val shift) as Hlt.
  destruct (list_ascii_of_string Base64.encodeURL !! _) as [c|] eqn:E.
  - by eapply list_elem_of_lookup_2.
  - apply lookup_ge_None in E.
    assert (length (list_ascii_of_string Base64.encodeURL) = 64%nat) as Hl
      by reflexivity.
    rewrite Hl in E. lia.
Qed.

Lemma EncodeToString_url_safe_aux n :
  forall src : list Byte.byte,
    (length src < n)%nat ->
    Forall url_safe (list_ascii_of_string (Base64.EncodeToString src)).
Proof.
  induction n as [|n IH]; intros src Hlt; [lia|].
  destruct src as [|a [|b [|c rest]]]; cbn [Base64.EncodeToString].
  - constructor.
  - repeat (constructor; [first [left; apply sextet_alphabet | by right]|]).
    constructor.
  - repeat (constructor; [first [left; apply sextet_alphabet | by right]|]).
    constructor.
  - cbn [list_ascii_of_string].
    repeat (constructor; [left; apply sextet_alphabet|]).
    apply IH. cbn [length] in Hlt. lia.
Qed.

(** X11.  A token that [generateSecureToken(32)] returns is the encoding of
    exactly the 32 bytes the entropy source delivered first; it has 44
    characters, each from the URL-safe alphabet [A-Za-z0-9-_] except the
    last, which is the padding [=].  When the source fails or delivers fewer
    than 32 bytes, no token is returned. *)
Theorem generateSecureToken_form drawn :
  (forall token, generateSecureToken 32 drawn = Some token ->
     exists bs,
       drawn = Some bs /\ (32 <= length bs)%nat
       /\ token = Base64.EncodeToString (take 32 bs)
       /\ String.length token = 44%nat
       /\ Forall url_safe (list_ascii_of_string token)
       /\ (forall n c, (n < 43)%nat -> String.get n token = Some c ->
             c ∈ list_ascii_of_string Base64.encodeURL)
       /\ String.get 43 token = Some "="%char)
  /\ (generateSecureToken 32 drawn = None <->
      drawn = None \/ exists bs, drawn = Some bs /\ (length bs < 32)%nat).
Proof.
  unfold generateSecureToken, rand_Read. rewrite repeat_length. split.
  - intros token. destruct drawn as [bs|]; [|discriminate].
    destruct (Nat.leb_spec 32 (length bs)) as [Hle|Hgt]; [|discriminate].
    intros [= <-]. exists bs. split; [done|]. split; [done|]. split; [done|].
    assert (Hlen : length (take 32 bs) = 32%nat) by (rewrite length_take; lia).
    split; [by rewrite EncodeToString_length, Hlen|].
    split; [by apply (EncodeToString_url_safe_aux 33); lia|].
    generalize dependent (take 32 bs). intros l Hl.
    do 33 (destruct l as [|? l]; try discriminate Hl).
    cbn [Base64.EncodeToString]. split; [|reflexivity].
    intros n c Hn. do 43 (destruct n as [|n]; [intros [= <-]; apply sextet_alphabet|]).
    lia.
  - destruct drawn as [bs|]; [|split; [by left|done]].
    destruct (Nat.leb_spec 32 (length bs)) as [Hle|Hgt].
    + split; [done|]. intros [?|(bs' & [= <-] & Hlt)]; [done|lia].
    + split; [|done]. intros _. right. by exists bs.
Qed.

Lemma generateSecureToken_form_witness :
  exists bs,
    Sample.ones = Some bs /\ (32 <= length bs)%nat
    /\ Sample.token1 = Base64.EncodeToString (take 32 bs)
    /\ String.get 43 Sample.token1 = Some "="%char.
Proof.
  destruct (proj1 (generateSecureToken_form Sample.ones) Sample.token1)
    as (bs & Hd & Hl & Ht & _ & _ & _ & Hp).
  - vm_compute; reflexivity.
  - exists bs. repeat split; done.
Defined.

(** ** The cleanup worker *)

(** The loop from the log [log0] and the store [s]. *)
Lemma cleanupWorker_loop ticks :
  forall log0 s, wf s ->
  exists log s',
    foldl cleanupWorker_tick (Some (log0, s)) ticks = Some (log0 ++ log, s')
    /\ wf s' /\ objs s' = objs s
    /\ Forall (fun c => 0 < c) log
    /\ foldr Z.add 0 log
       = Z.of_nat (size (shares s)) - Z.of_nat (size (shares s'))
    /\ forall tok,
         shares s' !! tok
         = match shares s !! tok with
           | Some p =>
               if existsb (fun t => expired t (objs s) p) ticks
               then None else Some p
           | None => None
           end.
Proof.
  induction ticks as [|t ticks IH]; intros log0 s Hwf.
  - exists [], s. cbn [foldl foldr existsb]. rewrite app_nil_r.
    split; [done|]. split; [done|]. split; [done|]. split; [done|].
    split; [lia|].
    intros tok. by destruct (shares s !! tok).
  - cbn [foldl cleanupWorker_tick].
    destruct (CleanupExpired_in_lookup (map_to_list (shares s)) t s Hwf
                ltac:(reflexivity)) as (c & s1 & Hrun & Hobjs & Hc & Hlk).
    unfold CleanupExpired. rewrite Hrun.
    assert (Hwf1 : wf s1) by (by eapply wf_CleanupExpired_in).
    assert (Hc0 : 0 <= c).
    { assert (size (shares s1) <= size (shares s))%nat; [|lia].
      apply map_subseteq_size, map_subseteq_spec. intros tok p.
      rewrite Hlk. destruct (shares s !! tok) as [q|]; [|done].
      by destruct (expired t (objs s) q). }
    destruct (IH (if 0 <? c then log0 ++ [c] else log0) s1 Hwf1)
      as (log & s' & Hfold & Hwf' & Hobjs' & Hpos & Hsum & Hlk').
    exists ((if 0 <? c then [c] else []) ++ log), s'.
    split.
    { rewrite Hfold. destruct (Z.ltb_spec 0 c); [by rewrite <- app_assoc|done]. }
    split; [done|]. split; [congruence|]. split.
    { destruct (Z.ltb_spec 0 c); [by constructor|done]. }
    split.
    { destruct (Z.ltb_spec 0 c); cbn [app foldr]; lia. }
    intros tok. rewrite Hlk', Hlk, Hobjs. cbn [existsb].
    destruct (shares s !! tok) as [p|]; [|done].
    by destruct (expired t (objs s) p).
Qed.

Lemma existsb_expired (heap : list ShareData) p d ticks :
  heap !! p = Some d ->
  existsb (fun t => expired t heap p) ticks = true
  <-> Exists (fun t => ExpiresAt d < t) ticks.
Proof.
  intros Hd. rewrite existsb_exists, Exists_exists.
  split; intros (t & Hin & Ht); exists t.
  - split; [by apply list_elem_of_In|].
    unfold expired, After in Ht. rewrite Hd in Ht. by apply Z.ltb_lt.
  - split; [by apply list_elem_of_In|].
    unfold expired, After. rewrite Hd. by apply Z.ltb_lt.
Qed.

(** Which handles the worker leaves. *)
Lemma cleanupWorker_handles ticks s :
  wf s ->
  exists log s',
    cleanupWorker ticks s = Some (log, s')
    /\ objs s' = objs s
    /\ (forall tok p d, shares s !! tok = Some p -> objs s !! p = Some d ->
          Exists (fun t => ExpiresAt d < t) ticks -> shares s' !! tok = None)
    /\ (forall tok p d, shares s !! tok = Some p -> objs s !! p = Some d ->
          Forall (fun t => t <= ExpiresAt d) ticks ->
          shares s' !! tok = Some p).
Proof.
  intros Hwf. unfold cleanupWorker.
  destruct (cleanupWorker_loop ticks [] s Hwf)
    as (log & s' & Hfold & _ & Hobjs & _ & _ & Hlk).
  exists log, s'. split; [done|]. split; [done|]. split.
  - intros tok p d Hs Hd He. rewrite Hlk, Hs.
    apply (existsb_expired _ p d ticks Hd) in He. by rewrite He.
  - intros tok p d Hs Hd Hall. rewrite Hlk, Hs.
    destruct (existsb _ ticks) eqn:E; [|done].
    apply (existsb_expired _ p d ticks Hd) in E.
    apply Exists_exists in E as (t & Hin & Ht).
    rewrite Forall_forall in Hall. specialize (Hall t Hin). lia.
Qed.

(** X12.  The cleanup worker, over any ticks and from any store satisfying
    the invariant: it does not panic; it logs only positive counts and the
    counts it logs add up to the number of records it removed; it touches no
    record of the heap; a handle is gone at the end exactly when its record
    was past its deadline at one of the ticks, and otherwise still bound to
    its record. *)
Theorem cleanupWorker_accounts ticks s :
  wf s ->
  exists log s',
    cleanupWorker ticks s = Some (log, s')
    /\ wf s' /\ objs s' = objs s
    /\ Forall (fun c => 0 < c) log
    /\ foldr Z.add 0 log
       = Z.of_nat (size (shares s)) - Z.of_nat (size (shares s'))
    /\ (forall tok p d, shares s !! tok = Some p -> objs s !! p = Some d ->
          Exists (fun t => ExpiresAt d < t) ticks -> shares s' !! tok = None)
    /\ (forall tok p d, shares s !! tok = Some p -> objs s !! p = Some d ->
          Forall (fun t => t <= ExpiresAt d) ticks ->
          shares s' !! tok = Some p)
    /\ (forall tok, shares s !! tok = None -> shares s' !! tok = None).
Proof.
  intros Hwf. unfold cleanupWorker.
  destruct (cleanupWorker_loop ticks [] s Hwf)
    as (log & s' & Hfold & Hwf' & Hobjs & Hpos & Hsum & Hlk).
  exists log, s'. split; [done|]. split; [done|]. split; [done|].
  split; [done|]. split; [done|].
  split; [|split].
  - intros tok p d Hs Hd He. rewrite Hlk, Hs.
    apply (existsb_expired _ p d ticks Hd) in He. by rewrite He.
  - intros tok p d Hs Hd Hall. rewrite Hlk, Hs.
    destruct (existsb _ ticks) eqn:E; [|done].
    apply (existsb_expired _ p d ticks Hd) in E.
    apply Exists_exists in E as (t & Hin & Ht).
    rewrite Forall_forall in Hall. specialize (Hall t Hin). lia.
  - intros tok Hs. by rewrite Hlk, Hs.
Qed.

Lemma cleanupWorker_accounts_witness :
  wf Sample.store2
  /\ exists log s',
       cleanupWorker [2500; 3600000002001; 3600000002002] Sample.store2
       = Some (log, s')
       /\ log = [1]
       /\ shares s' !! Sample.token1 = None
       /\ shares s' !! Sample.token0 = Some 0%nat.
Proof.
  split; [wf_by_computation|].
  destruct (cleanupWorker_accounts [2500; 3600000002001; 3600000002002]
              Sample.store2 ltac:(wf_by_computation))
    as (log & s' & Hrun & _ & _ & _ & _ & Hgone & Hkept & _).
  exists log, s'. split; [exact Hrun|].
  assert (Hrun' := Hrun). vm_compute in Hrun'.
  split; [congruence|]. split.
  - refine (Hgone Sample.token1 1%nat _ _ _ _).
    + vm_compute; reflexivity.
    + vm_compute; reflexivity.
    + apply Exists_cons_tl, Exists_cons_hd. vm_compute; reflexivity.
  - refine (Hkept Sample.token0 0%nat _ _ _ _).
    + vm_compute; reflexivity.
    + vm_compute; reflexivity.
    + repeat constructor; vm_compute; discriminate.
Defined.

(** X13.  A secret past its deadline is not returned, swept or not.  For a
    record whose deadline has passed at the time of the redeem, after any
    ticks of the cleanup worker: the redeem answers 410 "Share has expired"
    when no tick came after the deadline, and 404 when one did; in both
    cases nothing is disclosed and the handle is absent afterwards. *)
Theorem expired_never_returned_swept_or_not ticks now_check now_mark tok s p d
    log s' :
  wf s ->
  shares s !! tok = Some p -> objs s !! p = Some d ->
  cleanupWorker ticks s = Some (log, s') ->
  ExpiresAt d < now_check ->
  let resp := (GetShareHandler now_check now_mark (redeem_request tok) s').1 in
  let s'' := (GetShareHandler now_check now_mark (redeem_request tok) s').2 in
  (Forall (fun t => t <= ExpiresAt d) ticks ->
   resp = Error "Share has expired" StatusGone)
  /\ (Exists (fun t => ExpiresAt d < t) ticks ->
      resp = Error "Share not found or expired" StatusNotFound)
  /\ (outcome resp = Expired \/ outcome resp = NotFound)
  /\ payload_of resp = None
  /\ shares s'' !! tok = None.
Proof.
  intros Hwf Hs Hd Hrun Hexp resp s''. subst resp s''.
  destruct (proj1 Hwf _ _ Hs) as [Hlen _].
  assert (Hne : tok <> EmptyString) by (intros ->; discriminate).
  destruct (cleanupWorker_handles ticks s Hwf)
    as (log1 & s1 & Hrun1 & Hobjs & Hgone & Hkept).
  rewrite Hrun in Hrun1. injection Hrun1 as <- <-.
  assert (Hcase : Forall (fun t => t <= ExpiresAt d) ticks
                  \/ Exists (fun t => ExpiresAt d < t) ticks).
  { clear. induction ticks as [|t ticks [IH|IH]].
    - by left.
    - destruct (Z.le_gt_cases t (ExpiresAt d)).
      + left. by constructor.
      + right. by apply Exists_cons_hd.
    - right. by apply Exists_cons_tl. }
  assert (Hexcl : Forall (fun t => t <= ExpiresAt d) ticks ->
                  Exists (fun t => ExpiresAt d < t) ticks -> False).
  { intros Hall (t & Hin & Ht)%Exists_exists.
    rewrite Forall_forall in Hall. specialize (Hall t Hin). lia. }
  destruct Hcase as [Hall|Hex].
  - specialize (Hkept tok p d Hs Hd Hall).
    rewrite (GetShareHandler_expired now_check now_mark tok s' p d Hne Hkept
               ltac:(by rewrite Hobjs) Hexp).
    cbn. split; [done|]. split; [intros; by destruct Hexcl|].
    split; [by left|]. split; [done|]. apply lookup_delete_eq.
  - specialize (Hgone tok p d Hs Hd Hex).
    rewrite (GetShareHandler_unknown now_check now_mark tok s' Hne Hgone).
    cbn. split; [intros; by destruct Hexcl|]. split; [done|].
    split; [by right|]. done.
Qed.

Lemma expired_never_returned_swept_or_not_witness :
  exists log s',
    cleanupWorker [2500] Sample.store2 = Some (log, s')
    /\ (GetShareHandler 3600000002001 3600000002002
          (redeem_request Sample.token1) s').1
       = Error "Share has expired" StatusGone.
Proof.
  destruct (cleanupWorker [2500] Sample.store2) as [[log s']|] eqn:E;
    [|vm_compute in E; discriminate].
  exists log, s'. split; [reflexivity|].
  refine (proj1 (expired_never_returned_swept_or_not [2500] 3600000002001
                   3600000002002 Sample.token1 Sample.store2 1%nat
                   (created_record 2000
                      (mkShareRequest "aHVudGVyMg==" "GitHub" "octocat" 1))
                   log s' _ _ _ E _) _).
  - wf_by_computation.
  - vm_compute; reflexivity.
  - vm_compute; reflexivity.
  - vm_compute; reflexivity.
  - repeat constructor. vm_compute; discriminate.
Defined.

(** ** The route and the middleware *)

(** X14.  Through the CORS middleware and the method switch of the
    ["/api/share/"] route: every response carries the four CORS headers,
    with the configured origin or [*] when none is configured; an OPTIONS
    preflight is answered without calling any handler; only a GET can
    disclose a secret, and only a GET or a DELETE can change the store. *)
Theorem shareRoute_methods env now_check now_mark r s :
  wf s ->
  let header := (corsMiddleware env (shareRoute now_check now_mark) r s).1.1 in
  let served := (corsMiddleware env (shareRoute now_check now_mark) r s).1.2 in
  let s' := (corsMiddleware env (shareRoute now_check now_mark) r s).2 in
  header = cors_headers (if (env =? "")%string then "*" else env)
  /\ (Method r = "OPTIONS" -> served = Preflight /\ s' = s)
  /\ (s' <> s -> Method r = "GET" \/ Method r = "DELETE")
  /\ (forall resp x, served = Handled resp -> payload_of resp = Some x ->
        Method r = "GET")
  /\ (Method r <> "OPTIONS" -> Method r <> "GET" -> Method r <> "DELETE" ->
      served = Handled (Error "Method not allowed" StatusMethodNotAllowed))
  /\ served <> Handled Aborted.
Proof.
  intros Hwf header served s'. subst header served s'.
  unfold corsMiddleware.
  destruct (Method r =? "OPTIONS")%string eqn:HO.
  { apply String.eqb_eq in HO. cbn. repeat split; try done.
    all: intros; congruence. }
  apply String.eqb_neq in HO.
  destruct (shareRoute now_check now_mark r s) as [resp s1] eqn:HR.
  cbn [fst snd]. split; [done|]. split; [done|].
  unfold shareRoute in HR.
  destruct (Method r =? "GET")%string eqn:HG.
  { apply String.eqb_eq in HG. split; [by left|]. split; [done|].
    split; [done|]. intros [= ->].
    pose proof (get_never_panics now_check now_mark r s Hwf) as Hnp.
    rewrite HR in Hnp. done. }
  apply String.eqb_neq in HG.
  destruct (Method r =? "DELETE")%string eqn:HD.
  { apply String.eqb_eq in HD. split; [by right|]. split.
    - intros resp' x [= <-] Hx. exfalso.
      unfold DeleteShareHandler in HR.
      destruct (negb _); [by injection HR as <- <-|].
      destruct (_ =? _)%string; [by injection HR as <- <-|].
      destruct (Get _ s); [|by injection HR as <- <-].
      destruct (slice_to _ _); by injection HR as <- <-.
    - split; [done|]. intros [= ->].
      pose proof (delete_never_panics r s Hwf) as Hnp.
      rewrite HR in Hnp. done. }
  apply String.eqb_neq in HD. injection HR as <- <-.
  repeat split; try done. intros resp' x [= <-]. done.
Qed.

Lemma shareRoute_methods_witness :
  wf Sample.store2
  /\ (corsMiddleware "" (shareRoute 3000 3001)
        {| Method := "OPTIONS";
           URL_Path := "/api/share/" +:+ Sample.token0;
           Body := None |} Sample.store2).2 = Sample.store2.
Proof.
  split; [wf_by_computation|].
  refine (proj2 (proj1 (proj2 (shareRoute_methods "" 3000 3001
            {| Method := "OPTIONS";
               URL_Path := "/api/share/" +:+ Sample.token0;
               Body := None |} Sample.store2 _)) _)).
  - wf_by_computation.
  - reflexivity.
Defined.

(** ** Different entropy, different tokens *)

Section TokenInjective.

Local Open Scope N_scope.

Lemma lor_shiftl_add x k y :
  y < 2 ^ k -> N.lor (N.shiftl x k) y = x * 2 ^ k + y.
Proof.
  intros Hy. rewrite N.shiftl_mul_pow2.
  assert (Hdisj : N.land (x * 2 ^ k) y = 0).
  { apply N.bits_inj_0. intros n. rewrite N.land_spec.
    destruct (N.lt_ge_cases n k) as [Hlt|Hge].
    - by rewrite N.mul_pow2_bits_low.
    - rewrite <- (N.mod_small y (2 ^ k)) by done.
      rewrite N.mod_pow2_bits_high by done. apply andb_false_r. }
  by rewrite N.add_nocarry_lxor, N.lxor_lor.
Qed.

(** The 24-bit group the encoder builds from three bytes. *)
Lemma group_value a b c :
  N.lor (N.lor (N.shiftl (Byte.to_N a) 16) (N.shiftl (Byte.to_N b) 8))
        (Byte.to_N c)
  = Byte.to_N a * 65536 + Byte.to_N b * 256 + Byte.to_N c.
Proof.
  pose proof (Byte.to_N_bounded a). pose proof (Byte.to_N_bounded b).
  pose proof (Byte.to_N_bounded c).
  rewrite (N.shiftl_mul_pow2 (Byte.to_N b) 8).
  rewrite lor_shiftl_add by (change (2 ^ 16) with 65536; change (2 ^ 8) with 256; lia).
  change (2 ^ 16) with 65536. change (2 ^ 8) with 256.
  replace (Byte.to_N a * 65536 + Byte.to_N b * 256)
    with (N.shiftl (Byte.to_N a * 256 + Byte.to_N b) 8)
    by (rewrite N.shiftl_mul_pow2; change (2 ^ 8) with 256; lia).
  rewrite lor_shiftl_add by (change (2 ^ 8) with 256; lia).
  rewrite ?N.shiftl_mul_pow2. change (2 ^ 8) with 256. lia.
Qed.

Lemma to_N_inj a b : Byte.to_N a = Byte.to_N b -> a = b.
Proof.
  intros H. pose proof (Byte.of_to_N a) as Ha. rewrite H in Ha.
  rewrite Byte.of_to_N in Ha. by injection Ha.
Qed.

Lemma alphabet_NoDup : NoDup (list_ascii_of_string Base64.encodeURL).
Proof. compute_done. Qed.

(** Equal characters stand for equal six bits. *)
Lemma sextet_inj v v' k :
  Base64.sextet v k = Base64.sextet v' k ->
  (v / 2 ^ k) mod 64 = (v' / 2 ^ k) mod 64.
Proof.
  unfold Base64.sextet. rewrite !get_list_ascii.
  pose proof (sextet_index v k) as Hi. pose proof (sextet_index v' k) as Hi'.
  assert (Hl : length (list_ascii_of_string Base64.encodeURL) = 64%nat)
    by reflexivity.
  destruct (list_ascii_of_string Base64.encodeURL !! _) as [c|] eqn:E;
    [|apply lookup_ge_None in E; lia].
  destruct (list_ascii_of_string Base64.encodeURL
              !! N.to_nat (N.land (N.shiftr v' k) 63)) as [c'|] eqn:E';
    [|apply lookup_ge_None in E'; lia].
  intros <-.
  pose proof (NoDup_lookup _ _ _ _ alphabet_NoDup E E') as Heq.
  apply N2Nat.inj in Heq. revert Heq.
  change 63 with (N.ones 6). rewrite !N.land_ones, !N.shiftr_div_pow2.
  done.
Qed.

Lemma digits64 v :
  v < 16777216 ->
  v = ((v / 2 ^ 18) mod 64) * 262144 + ((v / 2 ^ 12) mod 64) * 4096
      + ((v / 2 ^ 6) mod 64) * 64 + (v / 2 ^ 0) mod 64.
Proof.
  intros Hv. change (2 ^ 18) with 262144. change (2 ^ 12) with 4096.
  change (2 ^ 6) with 64. change (2 ^ 0) with 1. rewrite N.div_1_r.
  pose proof (N.div_mod v 64 ltac:(lia)) as H0.
  pose proof (N.div_mod (v / 64) 64 ltac:(lia)) as H1.
  pose proof (N.div_mod (v / 4096) 64 ltac:(lia)) as H2.
  rewrite N.Div0.div_div in H1. rewrite N.Div0.div_div in H2.
  change (64 * 64) with 4096 in *. change (4096 * 64) with 262144 in *.
  assert (Hs : v / 262144 < 64)
    by (apply N.Div0.div_lt_upper_bound; lia).
  rewrite (N.mod_small (v / 262144) 64) by done. lia.
Qed.

Lemma low_field_0 m : (m * 64 / 2 ^ 0) mod 64 = 0.
Proof. change (2 ^ 0) with 1. rewrite N.div_1_r. apply N.Div0.mod_mul. Qed.

Lemma low_field_6 m : (m * 4096 / 2 ^ 6) mod 64 = 0.
Proof.
  change (2 ^ 6) with 64. replace (m * 4096) with (m * 64 * 64) by lia.
  rewrite N.div_mul by lia. apply N.Div0.mod_mul.
Qed.

(** Three bytes from their four characters. *)
Lemma group_inj a b c a' b' c' :
  let v := N.lor (N.lor (N.shiftl (Byte.to_N a) 16) (N.shiftl (Byte.to_N b) 8))
                 (Byte.to_N c) in
  let v' := N.lor (N.lor (N.shiftl (Byte.to_N a') 16) (N.shiftl (Byte.to_N b') 8))
                  (Byte.to_N c') in
  (v / 2 ^ 18) mod 64 = (v' / 2 ^ 18) mod 64 ->
  (v / 2 ^ 12) mod 64 = (v' / 2 ^ 12) mod 64 ->
  (v / 2 ^ 6) mod 64 = (v' / 2 ^ 6) mod 64 ->
  (v / 2 ^ 0) mod 64 = (v' / 2 ^ 0) mod 64 ->
  a = a' /\ b = b' /\ c = c'.
Proof.
  intros v v'. subst v v'. rewrite !group_value.
  pose proof (Byte.to_N_bounded a) as Ba.
  pose proof (Byte.to_N_bounded b) as Bb.
  pose proof (Byte.to_N_bounded c) as Bc.
  pose proof (Byte.to_N_bounded a') as Ba'.
  pose proof (Byte.to_N_bounded b') as Bb'.
  pose proof (Byte.to_N_bounded c') as Bc'.
  assert (Hinj : Byte.to_N a * 65536 + Byte.to_N b * 256 + Byte.to_N c
                 = Byte.to_N a' * 65536 + Byte.to_N b' * 256 + Byte.to_N c' ->
                 a = a' /\ b = b' /\ c = c').
  { intros Hv.
    assert (Byte.to_N a = Byte.to_N a' /\ Byte.to_N b = Byte.to_N b'
            /\ Byte.to_N c = Byte.to_N c') as (Ea & Eb & Ec) by lia.
    by rewrite (to_N_inj _ _ Ea), (to_N_inj _ _ Eb), (to_N_inj _ _ Ec). }
  assert (Hv : Byte.to_N a * 65536 + Byte.to_N b * 256 + Byte.to_N c
               < 16777216) by lia.
  assert (Hv' : Byte.to_N a' * 65536 + Byte.to_N b' * 256 + Byte.to_N c'
                < 16777216) by lia.
  revert Hinj Hv Hv'. clear.
  generalize (Byte.to_N a * 65536 + Byte.to_N b * 256 + Byte.to_N c).
  generalize (Byte.to_N a' * 65536 + Byte.to_N b' * 256 + Byte.to_N c').
  intros v' v Hinj Hv Hv' H18 H12 H6 H0. apply Hinj.
  rewrite (digits64 v Hv), (digits64 v' Hv').
  by rewrite H18, H12, H6, H0.
Qed.

Lemma shiftl_as_group a :
  N.shiftl (Byte.to_N a) 16
  = N.lor (N.lor (N.shiftl (Byte.to_N a) 16) (N.shiftl (Byte.to_N Byte.x00) 8))
          (Byte.to_N Byte.x00).
Proof.
  change (Byte.to_N Byte.x00) with 0. by rewrite N.shiftl_0_l, !N.lor_0_r.
Qed.

Lemma shiftl2_as_group a b :
  N.lor (N.shiftl (Byte.to_N a) 16) (N.shiftl (Byte.to_N b) 8)
  = N.lor (N.lor (N.shiftl (Byte.to_N a) 16) (N.shiftl (Byte.to_N b) 8))
          (Byte.to_N Byte.x00).
Proof. change (Byte.to_N Byte.x00) with 0. by rewrite N.lor_0_r. Qed.

Lemma EncodeToString_inj_aux n :
  forall l1 l2 : list Byte.byte,
    (length l1 < n)%nat -> length l1 = length l2 ->
    Base64.EncodeToString l1 = Base64.EncodeToString l2 -> l1 = l2.
Proof.
  induction n as [|n IH]; intros l1 l2 Hlt Hlen Henc; [lia|].
  destruct l1 as [|a [|b [|c l1]]], l2 as [|a' [|b' [|c' l2]]];
    try discriminate Hlen; [done| | |].
  - cbn [Base64.EncodeToString] in Henc.
    injection Henc as H18 H12.
    apply sextet_inj in H18, H12.
    rewrite (shiftl_as_group a), (shiftl_as_group a') in H18, H12.
    destruct (group_inj a Byte.x00 Byte.x00 a' Byte.x00 Byte.x00) as (-> & _);
      try done.
    + rewrite !group_value. change (Byte.to_N Byte.x00) with 0. rewrite !N.mul_0_l, !N.add_0_r.
      replace (Byte.to_N a * 65536) with (Byte.to_N a * 16 * 4096) by lia.
      replace (Byte.to_N a' * 65536) with (Byte.to_N a' * 16 * 4096) by lia.
      by rewrite !low_field_6.
    + rewrite !group_value. change (Byte.to_N Byte.x00) with 0. rewrite !N.mul_0_l, !N.add_0_r.
      replace (Byte.to_N a * 65536) with (Byte.to_N a * 1024 * 64) by lia.
      replace (Byte.to_N a' * 65536) with (Byte.to_N a' * 1024 * 64) by lia.
      by rewrite !low_field_0.
  - cbn [Base64.EncodeToString] in Henc.
    injection Henc as H18 H12 H6.
    apply sextet_inj in H18, H12, H6.
    rewrite (shiftl2_as_group a b), (shiftl2_as_group a' b') in H18, H12, H6.
    destruct (group_inj a b Byte.x00 a' b' Byte.x00) as (-> & -> & _);
      try done.
    rewrite !group_value. change (Byte.to_N Byte.x00) with 0. rewrite !N.add_0_r.
    replace (Byte.to_N a * 65536 + Byte.to_N b * 256)
      with ((Byte.to_N a * 1024 + Byte.to_N b * 4) * 64) by lia.
    replace (Byte.to_N a' * 65536 + Byte.to_N b' * 256)
      with ((Byte.to_N a' * 1024 + Byte.to_N b' * 4) * 64) by lia.
    by rewrite !low_field_0.
  - cbn [Base64.EncodeToString] in Henc.
    injection Henc as H18 H12 H6 H0 Hrest.
    apply sextet_inj in H18, H12, H6, H0.
    destruct (group_inj a b c a' b' c' H18 H12 H6 H0) as (-> & -> & ->).
    f_equal. f_equal. f_equal. apply (IH l1 l2); [|by injection Hlen|done].
    cbn [length] in Hlt. lia.
Qed.

End TokenInjective.

(** X15.  Tokens differ whenever the entropy differs: two calls of
    [generateSecureToken(32)] return the same token only if the entropy
    source delivered the same 32 bytes to both. *)
Theorem generateSecureToken_injective bs1 bs2 token :
  generateSecureToken 32 (Some bs1) = Some token ->
  generateSecureToken 32 (Some bs2) = Some token ->
  take 32 bs1 = take 32 bs2.
Proof.
  unfold generateSecureToken, rand_Read. rewrite repeat_length.
  destruct (Nat.leb_spec 32 (length bs1)) as [H1|]; [|discriminate].
  destruct (Nat.leb_spec 32 (length bs2)) as [H2|]; [|discriminate].
  intros [= <-] [= Henc].
  apply (EncodeToString_inj_aux 33); [| |done].
  - rewrite length_take. lia.
  - rewrite !length_take. lia.
Qed.

Lemma generateSecureToken_injective_witness :
  take 32 (repeat Byte.xff 32 ++ [Byte.x01]) = take 32 (repeat Byte.xff 32).
Proof.
  apply (generateSecureToken_injective
           (repeat Byte.xff 32 ++ [Byte.x01]) (repeat Byte.xff 32)
           Sample.token1).
  - vm_compute; reflexivity.
  - vm_compute; reflexivity.
Defined.

(** ** Redeems that interleave *)

Lemma wf_sched_step cfg e : wf cfg.1 -> wf (sched_step cfg e).1.
Proof.
  intros Hwf. unfold sched_step.
  destruct (cfg.2 !! e.1) as [t|]; [|done].
  pose proof (wf_get_step e.2 t cfg.1 Hwf) as H.
  by destruct (get_step e.2 t cfg.1).
Qed.

(** X16.  The invariant of the store survives every interleaving: however
    the steps of any number of redeems in flight are scheduled, and wherever
    those redeems stand, every key stays a 44-character token bound to an
    allocated record that no other key shares. *)
Theorem wf_run_schedule sched s threads :
  wf s -> wf (run_schedule sched (s, threads)).1.
Proof.
  unfold run_schedule.
  change s with ((s, threads).1) at 1. generalize (s, threads).
  induction sched as [|e sched IH]; intros cfg Hwf; [done|].
  cbn [foldl]. apply IH. by apply wf_sched_step.
Qed.

Lemma wf_run_schedule_witness :
  wf Sample.store1
  /\ wf (run_schedule (race 3000 3000 3001 3001)
           (Sample.store1, [get_thread (redeem_request Sample.token0);
                            get_thread (redeem_request Sample.token0)])).1.
Proof.
  split; [wf_by_computation|].
  apply (wf_run_schedule (race 3000 3000 3001 3001) Sample.store1).
  wf_by_computation.
Defined.

Lemma get_thread_harmless s r : harmless s (get_thread r).
Proof.
  unfold get_thread. destruct (negb _); [done|].
  by destruct (_ =? _)%string.
Qed.

Lemma harmless_same_heap s s' t :
  objs s' = objs s -> harmless s t -> harmless s' t.
Proof. intros Ho. destruct t; cbn; try done. by rewrite Ho. Qed.

(** A harmless thread stays harmless and does not write to the heap. *)
Lemma get_step_harmless e sched t s :
  all_consumed (e :: sched) s -> harmless s t ->
  objs (get_step e.2 t s).2 = objs s
  /\ harmless (get_step e.2 t s).2 (get_step e.2 t s).1.
Proof.
  intros Hall Ht. destruct t as [tok|tok p|tok|tok p|p|tok p|tok p|tok resp|resp];
    cbn [get_step]; try done.
  - by destruct (Get tok s).
  - unfold deref. destruct (objs s !! p) as [d|] eqn:Hd; [|done].
    unfold After. destruct (Z.ltb_spec (ExpiresAt d) e.2) as [Hlt|Hge]; [done|].
    cbn. split; [done|]. intros d' Hd'.
    assert (d' = d) as -> by congruence.
    destruct (Hall p d Hd) as [Hv|Hexp]; [done|].
    apply Forall_cons in Hexp as [Hexp _]. cbv beta in Hexp.
    by apply Z.lt_nge in Hexp.
  - unfold deref. destruct (objs s !! p) as [d|] eqn:Hd; [|done].
    cbn in Ht. rewrite (Ht d Hd). done.
  - unfold deref. by destruct (objs s !! p).
Qed.

Lemma sched_step_harmless e sched cfg :
  all_consumed (e :: sched) cfg.1 -> Forall (harmless cfg.1) cfg.2 ->
  objs (sched_step cfg e).1 = objs cfg.1
  /\ Forall (harmless (sched_step cfg e).1) (sched_step cfg e).2.
Proof.
  intros Hall Hts. unfold sched_step.
  destruct (cfg.2 !! e.1) as [t|] eqn:Ht; [|done].
  assert (Hh : harmless cfg.1 t).
  { rewrite Forall_forall in Hts. apply Hts. by eapply list_elem_of_lookup_2. }
  destruct (get_step_harmless e sched t cfg.1 Hall Hh) as [Ho Hh'].
  destruct (get_step e.2 t cfg.1) as [t' s']. cbn [fst snd] in *.
  split; [done|]. apply Forall_insert; [|done].
  eapply Forall_impl; [exact Hts|]. intros t0. by apply harmless_same_heap.
Qed.

Lemma run_schedule_harmless sched :
  forall cfg,
    all_consumed sched cfg.1 -> Forall (harmless cfg.1) cfg.2 ->
    objs (run_schedule sched cfg).1 = objs cfg.1
    /\ Forall (harmless (run_schedule sched cfg).1) (run_schedule sched cfg).2.
Proof.
  induction sched as [|e sched IH]; intros cfg Hall Hts; [done|].
  rewrite run_schedule_cons.
  destruct (sched_step_harmless e sched cfg Hall Hts) as [Ho Hts'].
  destruct (IH (sched_step cfg e)) as [Ho' Hts'']; [|done|].
  - intros p d Hd. rewrite Ho in Hd. destruct (Hall p d Hd) as [Hv|Hexp].
    + by left.
    + right. by apply Forall_cons in Hexp as [_ ?].
  - split; [congruence|done].
Qed.

(** X17.  What is consumed stays consumed, under every interleaving.  When
    each record of the heap is marked viewed or is past its deadline at
    every clock reading of the schedule, then however the steps of any
    redeem requests interleave, no redeem returns a secret, finished or
    not, and no record of the heap is changed. *)
Theorem consumed_never_disclosed sched rs s :
  all_consumed sched s ->
  let cfg := run_schedule sched (s, get_thread <$> rs) in
  objs cfg.1 = objs s
  /\ Forall (fun t => delivered t ≫= payload_of = None) cfg.2.
Proof.
  intros Hall cfg. subst cfg.
  destruct (run_schedule_harmless sched (s, get_thread <$> rs)) as [Ho Hts].
  - done.
  - cbn. apply Forall_fmap, Forall_forall. intros r _. apply get_thread_harmless.
  - split; [done|]. eapply Forall_impl; [exact Hts|].
    intros t Ht. by destruct t.
Qed.

Lemma consumed_never_disclosed_witness :
  let sched :=
    (fun i => (i, 90000000000000)) <$> [0; 1; 1; 0; 0; 1; 0; 1; 1; 0; 0; 1]%nat in
  all_consumed sched Sample.store2
  /\ Forall (fun t => delivered t ≫= payload_of = None)
       (run_schedule sched
          (Sample.store2, get_thread <$> [redeem_request Sample.token0;
                                          redeem_request Sample.token0])).2.
Proof.
  intros sched.
  assert (Hall : all_consumed sched Sample.store2).
  { intros p d Hd. right.
    destruct p as [|[|p]]; vm_compute in Hd; [| |discriminate Hd];
      injection Hd as <-; repeat constructor. }
  split; [exact Hall|].
  apply (consumed_never_disclosed sched [redeem_request Sample.token0;
                                         redeem_request Sample.token0]
           Sample.store2 Hall).
Defined.

Lemma tokens_differ bs1 bs2 t1 t2 :
  generateSecureToken 32 (Some bs1) = Some t1 ->
  generateSecureToken 32 (Some bs2) = Some t2 ->
  take 32 bs1 <> take 32 bs2 -> t1 <> t2.
Proof.
  unfold generateSecureToken, rand_Read. rewrite repeat_length.
  destruct (Nat.leb_spec 32 (length bs1)) as [H1|]; [|discriminate].
  destruct (Nat.leb_spec 32 (length bs2)) as [H2|]; [|discriminate].
  intros [= <-] [= <-] Hne Henc. apply Hne.
  apply (EncodeToString_inj_aux 33); [| |done].
  - rewrite length_take. lia.
  - rewrite !length_take. lia.
Qed.

(** X18.  Creates that are fed different entropy do not interfere: after
    two accepted creates whose 32 entropy bytes differ, the two returned
    handles differ and each is bound to the record of its own request, so
    the second create overwrote nothing of the first. *)
Theorem creates_with_distinct_entropy_coexist baseURL1 baseURL2 now1 now2
    bs1 bs2 o1 o2 req1 req2 t1 t2 s :
  wf s ->
  Decode (Some o1) = Some req1 -> valid_request req1 ->
  Decode (Some o2) = Some req2 -> valid_request req2 ->
  generateSecureToken 32 (Some bs1) = Some t1 ->
  generateSecureToken 32 (Some bs2) = Some t2 ->
  take 32 bs1 <> take 32 bs2 ->
  let s1 := (CreateShareHandler baseURL1 now1 (Some bs1) (create_request o1) s).2 in
  let s2 := (CreateShareHandler baseURL2 now2 (Some bs2) (create_request o2) s1).2 in
  t1 <> t2
  /\ holds_record t1 (created_record now1 req1) s2
  /\ holds_record t2 (created_record now2 req2) s2.
Proof.
  intros Hwf HD1 Hv1 HD2 Hv2 HG1 HG2 Hne s1 s2. subst s1 s2.
  pose proof (tokens_differ bs1 bs2 t1 t2 HG1 HG2 Hne) as Ht.
  destruct (create_record_stored baseURL1 now1 (Some bs1) o1 req1 t1 s HD1 Hv1 HG1)
    as (s1 & Hrun1 & Hs1 & Hd1).
  rewrite Hrun1. cbn [snd].
  destruct (create_record_stored baseURL2 now2 (Some bs2) o2 req2 t2 s1 HD2 Hv2 HG2)
    as (s2 & Hrun2 & Hs2 & Hd2).
  rewrite Hrun2. cbn [snd].
  split; [done|]. split; [|by eexists].
  pose proof (frame_CreateShareHandler baseURL2 now2 (Some bs2)
                (create_request o2) t1 (created_record now1 req1) s1) as Hfr.
  rewrite Hrun2 in Hfr. apply Hfr; [congruence|by eexists].
Qed.

Lemma creates_with_distinct_entropy_coexist_witness :
  Sample.token0 <> Sample.token1
  /\ holds_record Sample.token0
       (created_record 1000 (mkShareRequest "c2VjcmV0" "Gmail" "a@b.com" 0))
       Sample.store2
  /\ holds_record Sample.token1
       (created_record 2000 (mkShareRequest "aHVudGVyMg==" "GitHub" "octocat" 1))
       Sample.store2.
Proof.
  apply (creates_with_distinct_entropy_coexist Sample.baseURL Sample.baseURL
           1000 2000 (repeat Byte.x00 32) (repeat Byte.xff 32)
           Sample.gmail Sample.github
           (mkShareRequest "c2VjcmV0" "Gmail" "a@b.com" 0)
           (mkShareRequest "aHVudGVyMg==" "GitHub" "octocat" 1)
           Sample.token0 Sample.token1 NewShareStore).
  - apply wf_New.
  - reflexivity.
  - repeat split; discriminate.
  - reflexivity.
  - repeat split; discriminate.
  - vm_compute; reflexivity.
  - vm_compute; reflexivity.
  - vm_compute; discriminate.
Defined.

(** ** What holds of the records of every reachable store *)

Section RecordsInvariant.

Implicit Types (s : ShareStore) (tok token : string) (p : ptr)
  (d : ShareData) (now : Time).

Lemma records_inv_New : records_inv NewShareStore.
Proof. split; intros *; cbn; [by rewrite lookup_empty|done]. Qed.

Lemma records_inv_Delete tok s : records_inv s -> records_inv (Delete tok s).
Proof.
  intros [Hl Hr]. split; [|done]. cbn.
  intros tok' p d [_ H]%lookup_delete_Some. eauto.
Qed.

Lemma records_inv_create baseURL now drawn r s :
  wf s -> records_inv s ->
  records_inv (CreateShareHandler baseURL now drawn r s).2.
Proof.
  intros Hwf [Hl Hr]. unfold CreateShareHandler.
  destruct (negb _); [done|].
  destruct (Decode _) as [req|]; [|done].
  destruct (_ || _ || _) eqn:HV; [done|].
  apply valid_request_bool in HV. destruct HV as (V1 & V2 & V3).
  destruct (generateSecureToken 32 drawn) as [token|]; [|done].
  cbn [new_ShareData].
  assert (Hnew : records_inv
            (Add token (length (objs s))
               {| shares := shares s;
                  objs := objs s ++ [created_record now req] |})).
  { split; cbn.
    - intros tok p d. rewrite lookup_insert. case_decide as E.
      + intros [= <-]. rewrite lookup_app_r, Nat.sub_diag by lia.
        by intros [= <-].
      + intros Hs. destruct (proj1 Hwf _ _ Hs) as [_ Hal].
        apply lookup_lt_is_Some in Hal. rewrite lookup_app_l by done. eauto.
    - intros p d. destruct (decide (p < length (objs s))%nat) as [Hlt|Hge].
      + rewrite lookup_app_l by done. apply Hr.
      + rewrite lookup_app_r by lia.
        destruct (p - length (objs s))%nat as [|n]; [|done].
        intros [= <-]. by repeat split. }
  destruct (deref _ _); [destruct (slice_to _ _)|]; exact Hnew.
Qed.

Lemma records_inv_get now_check now_mark r s :
  wf s -> records_inv s ->
  records_inv (GetShareHandler now_check now_mark r s).2.
Proof.
  intros Hwf [Hl Hr]. unfold GetShareHandler.
  destruct (negb _); [done|].
  set (token := TrimPrefix _ _).
  destruct (token =? "")%string; [done|].
  unfold Get, deref.
  destruct (shares s !! token) as [p|] eqn:Hs; [|done].
  destruct (proj1 Hwf _ _ Hs) as [Hlen [d Hd]]. rewrite Hd.
  destruct (After _ _); [by apply records_inv_Delete|].
  destruct (Viewed d); [done|].
  rewrite (MarkViewed_present now_mark token s p d Hs Hd). cbn [objs].
  rewrite list_lookup_insert_eq by (by eapply lookup_lt_Some).
  destruct (slice_to_token _ Hlen) as [pre ->]. cbn [snd].
  split; cbn.
  - intros tok q dq [Hne Hq]%lookup_delete_Some.
    rewrite list_lookup_insert_ne; [by eapply Hl|].
    intros <-. apply Hne. by eapply (proj2 Hwf).
  - intros q dq. destruct (decide (p = q)) as [<-|Hne].
    + rewrite list_lookup_insert_eq by (by eapply lookup_lt_Some).
      intros [= <-]. destruct (Hr p d Hd) as (F1 & F2 & F3 & _). cbn.
      repeat split; try done.
    + rewrite list_lookup_insert_ne by done. apply Hr.
Qed.

Lemma records_inv_delete r s :
  records_inv s -> records_inv (DeleteShareHandler r s).2.
Proof.
  intros Hinv. unfold DeleteShareHandler.
  destruct (negb _); [done|].
  destruct (_ =? _)%string; [done|].
  destruct (Get _ s); [|done].
  destruct (slice_to _ _); by apply records_inv_Delete.
Qed.

Lemma records_inv_cleanup order now s count s' :
  wf s -> order ≡ₚ map_to_list (shares s) ->
  CleanupExpired_in order now s = Some (count, s') ->
  records_inv s -> records_inv s'.
Proof.
  intros Hwf Hperm Hrun [Hl Hr].
  destruct (CleanupExpired_in_lookup order now s Hwf Hperm)
    as (c & s1 & Hrun' & Hobjs & _ & Hlk).
  rewrite Hrun in Hrun'. injection Hrun' as <- <-.
  split; rewrite Hobjs; [|done].
  intros tok p d. rewrite Hlk.
  destruct (shares s !! tok) as [q|] eqn:E; [|done].
  destruct (expired now (objs s) q); [done|]. intros [= <-]. by eapply Hl.
Qed.

End RecordsInvariant.

Lemma reachable_inv s : reachable s -> wf s /\ records_inv s.
Proof.
  induction 1 as [|s baseURL now drawn r _ [IHw IHr]
                   |s nc nm r _ [IHw IHr]
                   |s r _ [IHw IHr]
                   |s order now count s' _ [IHw IHr] Hperm Hrun].
  - split; [apply wf_New|apply records_inv_New].
  - split; [by apply wf_CreateShareHandler|by apply records_inv_create].
  - split; [by apply wf_GetShareHandler|by apply records_inv_get].
  - split; [by apply wf_DeleteShareHandler|by apply records_inv_delete].
  - split; [by eapply wf_CleanupExpired_in|by eapply records_inv_cleanup].
Qed.

(** X19.  In every store the server can reach with handlers that run one
    at a time: every key of the map is a 44-character token, bound to an
    allocated record that is not marked viewed (the redeem that marks a
    record unlinks it in the same call) and that no other key shares; every
    record of the heap has a non-empty secret, service name and username,
    and is marked viewed exactly when it has a viewed_at time. *)
Theorem reachable_store_invariant s :
  reachable s ->
  (forall tok p, shares s !! tok = Some p ->
     String.length tok = 44%nat
     /\ exists d, objs s !! p = Some d /\ Viewed d = false
                  /\ ViewedAt d = None)
  /\ (forall tok1 tok2 p, shares s !! tok1 = Some p ->
        shares s !! tok2 = Some p -> tok1 = tok2)
  /\ (forall p d, objs s !! p = Some d ->
        EncryptedPassword d <> EmptyString /\ ServiceName d <> EmptyString
        /\ Username d <> EmptyString
        /\ (Viewed d = false <-> ViewedAt d = None)).
Proof.
  intros Hr. destruct (reachable_inv s Hr) as [[Hk Hinj] [Hl Hrec]].
  split; [|split; [exact Hinj|exact Hrec]].
  intros tok p Hs. destruct (Hk tok p Hs) as [Hlen [d Hd]].
  split; [done|]. exists d. split; [done|].
  pose proof (Hl tok p d Hs Hd) as Hv. split; [done|].
  by apply (Hrec p d Hd).
Qed.

Lemma reachable_store_invariant_witness :
  reachable Sample.store2
  /\ forall tok p, shares Sample.store2 !! tok = Some p ->
       String.length tok = 44%nat
       /\ exists d, objs Sample.store2 !! p = Some d /\ Viewed d = false
                    /\ ViewedAt d = None.
Proof.
  assert (Hr : reachable Sample.store2).
  { unfold Sample.store2, Sample.store1.
    apply reach_create, reach_create, reach_new. }
  split; [exact Hr|].
  exact (proj1 (reachable_store_invariant Sample.store2 Hr)).
Defined.

(** X20.  With handlers that run one at a time, the already-viewed answer
    never occurs: on every reachable store, whatever the request and the
    time, the redeem handler does not answer 410 with the details of a
    viewed share.  (A second redeem is answered 404.) *)
Theorem AlreadyViewed_not_reachable now_check now_mark r s :
  reachable s ->
  outcome (GetShareHandler now_check now_mark r s).1 <> AlreadyViewed.
Proof.
  intros Hr. destruct (reachable_inv s Hr) as [Hwf [Hun _]].
  unfold GetShareHandler.
  destruct (negb _); [done|].
  set (token := TrimPrefix _ _).
  destruct (token =? "")%string; [done|].
  unfold Get, deref.
  destruct (shares s !! token) as [p|] eqn:Hs; [|done].
  destruct (proj1 Hwf _ _ Hs) as [Hlen [d Hd]]. rewrite Hd.
  destruct (After _ _); [done|].
  rewrite (Hun token p d Hs Hd).
  rewrite (MarkViewed_present now_mark token s p d Hs Hd). cbn [objs].
  rewrite list_lookup_insert_eq by (by eapply lookup_lt_Some).
  by destruct (slice_to_token _ Hlen) as [pre ->].
Qed.

Lemma AlreadyViewed_not_reachable_witness :
  reachable Sample.store2
  /\ outcome (GetShareHandler 3000 3001 (redeem_request Sample.token0)
                Sample.store2).1 <> AlreadyViewed.
Proof.
  assert (Hr : reachable Sample.store2).
  { unfold Sample.store2, Sample.store1.
    apply reach_create, reach_create, reach_new. }
  split; [exact Hr|].
  exact (AlreadyViewed_not_reachable 3000 3001 (redeem_request Sample.token0)
           Sample.store2 Hr).
Defined.
